(** * speech_to_text: the Streamlit transcription app of [main.py]

    A shallow embedding of the script [main.py].  Streamlit re-executes the
    whole script, top to bottom, on every user interaction; what survives
    from one execution to the next is [st.session_state].  One execution is
    the function [run] below: it takes the session state left by the
    previous execution together with what the outside world supplies to this
    execution (the uploaded file, whether the button was pressed, the values
    held by the text widgets, the answer of the transcription service) and
    returns the new session state, the elements put on the page and the
    requests sent to the service. *)

From Stdlib Require Import Ascii.
From stdpp Require Import base strings gmap list pretty.

Open Scope string_scope.
Open Scope N_scope.
Open Scope list_scope.

(** ** Time stamps and their formatting

    [segment['start']] and [segment['end']] are Python floats holding
    seconds.  The model covers the time stamps that are whole numbers of
    hundredths of a second, below 10^16 seconds: a time stamp is the number
    of hundredths.  On those values the two conversions the script uses are
    exact functions of the decimal digits:
    - [f"{x:.2f}"] prints the integer part, a point and two digits;
    - [f"{x}"] (the float's [repr]) prints the shortest decimal that reads
      back as the same float: the integer part, a point, and the fractional
      digits without trailing zeros, keeping one digit at least. *)

Definition Time : Type := N.

Definition two_digits (r : N) : string :=
  if r <? 10 then "0" +:+ pretty r else pretty r.

(** [f"{t:.2f}"] *)
Definition format_2f (t : Time) : string :=
  pretty (t / 100) +:+ "." +:+ two_digits (t mod 100).

(** The digits after the point in [f"{t}"], from the hundredths [r < 100]. *)
Definition fraction_digits (r : N) : string :=
  if r mod 10 =? 0 then pretty (r / 10) else two_digits r.

(** [f"{t}"] *)
Definition format_repr (t : Time) : string :=
  pretty (t / 100) +:+ "." +:+ fraction_digits (t mod 100).

(** A string without a decimal point. *)
Fixpoint no_point (s : string) : Prop :=
  match s with
  | EmptyString => True
  | String c rest => c ≠ "."%char ∧ no_point rest
  end.

(** The hundredths, and a check that [fraction_digits] tells any two of
    them apart. *)
Definition hundredths : list N := N.of_nat <$> seq 0 100.

Definition fraction_digits_distinct : bool :=
  forallb (λ a, forallb (λ b,
             if String.eqb (fraction_digits a) (fraction_digits b)
             then a =? b else true) hundredths) hundredths.

(** ** Data *)

(** A segment of [transcription.segments]: the script reads the entries
    ['start'], ['end'] and ['text']. *)
Record Segment : Type := mkSegment {
  seg_start : Time;
  seg_end : Time;
  seg_text : string
}.

(** The value returned by [client.audio.transcriptions.create]: the script
    reads [.text] and [.segments]. *)
Record Transcription : Type := mkTranscription {
  tr_text : string;
  tr_segments : list Segment
}.

(** The file handed over by [st.file_uploader]: its size in bytes and its
    content ([getvalue()]). *)
Record UploadedFile : Type := mkUploadedFile {
  file_size : N;
  file_value : string
}.

(** The keyword arguments of [client.audio.transcriptions.create]. *)
Record Request : Type := mkRequest {
  req_file : string;
  req_model : string;
  req_language : string;
  req_response_format : string
}.

(** The call either raises (the text of the exception) or returns. *)
Inductive ApiResult : Type :=
| Raised (e : string)
| Returned (t : Transcription).

(** [st.session_state], restricted to the four entries the script itself
    reads and writes; [None] is "the key is not in the dictionary".
    ['edited_segments'] holds a Python [dict] from widget keys to texts. *)
Record SessionState : Type := mkSessionState {
  ss_segments : option (list Segment);
  ss_transcript : option string;
  ss_edited_transcript : option string;
  ss_edited_segments : option (gmap string string)
}.

Definition empty_session : SessionState :=
  mkSessionState None None None None.

(** A row of [segments_data]: the dictionary with keys ['Time'] and
    ['Content']. *)
Record Row : Type := mkRow {
  row_Time : string;
  row_Content : string
}.

(** What one execution puts on the page, in order (styling left out). *)
Inductive Element : Type :=
| AudioPlayer
| ErrorBox (msg : string)
| SuccessBox (msg : string)
| FullTextArea (shown : string)
| DownloadTxt (data : string)
| TimeLabel (s : string)
| SegmentTextArea (key label shown : string)
| DownloadXlsx (rows : list Row)
| ScriptException (msg : string).

(** What the outside world supplies to one execution of the script. *)
Record RunInput : Type := mkRunInput {
  in_uploaded_file : option UploadedFile;
  in_button : bool;
  in_widgets : gmap string string
}.

(** ** The Streamlit calls the script depends on *)

(** A call either returns or raises; the only exception of the Streamlit
    runtime that the script can trigger by itself is the one for a widget
    key used twice. *)
Inductive Outcome (A : Type) : Type :=
| Ok (a : A)
| DuplicateWidgetID (key : string).
Arguments Ok {A} a.
Arguments DuplicateWidgetID {A} key.

(** [st.text_area(label, value=value, key=key)].  [used] are the widget keys
    already registered in this execution: no two widgets of one execution
    may have the same key, and Streamlit raises [DuplicateWidgetID] (named
    [StreamlitDuplicateElementKey] in later releases) when a key comes a
    second time.  Otherwise the call returns the text in the widget: the one the
    runtime holds under this key (typed by the user, or kept from the
    previous execution), and [value] when it holds none. *)
Definition text_area (widgets : gmap string string) (used : list string)
    (key value : string) : Outcome string :=
  if decide (key ∈ used) then DuplicateWidgetID key
  else Ok (default value (widgets !! key)).

(** ** The script *)

Definition set_segments (ss : SessionState) (v : list Segment) : SessionState :=
  mkSessionState (Some v) (ss_transcript ss) (ss_edited_transcript ss)
    (ss_edited_segments ss).

Definition set_transcript (ss : SessionState) (v : string) : SessionState :=
  mkSessionState (ss_segments ss) (Some v) (ss_edited_transcript ss)
    (ss_edited_segments ss).

Definition set_edited_transcript (ss : SessionState) (v : string) : SessionState :=
  mkSessionState (ss_segments ss) (ss_transcript ss) (Some v)
    (ss_edited_segments ss).

Definition set_edited_segments (ss : SessionState) (v : gmap string string)
    : SessionState :=
  mkSessionState (ss_segments ss) (ss_transcript ss) (ss_edited_transcript ss)
    (Some v).

(** Lines 24-29: the request built by [process_audio]. *)
Definition transcription_request (audio_file : UploadedFile) : Request :=
  {| req_file := file_value audio_file;
     req_model := "whisper-large-v3";
     req_language := "vi";
     req_response_format := "verbose_json" |}.

(** Lines 16-34, [process_audio].  The temporary file is written, read back
    and removed without failure; the call to the service may raise, and then
    nothing after it is executed.  The result is the state, the requests
    sent, and the returned text or the exception. *)
Definition process_audio (api : Request → ApiResult) (audio_file : UploadedFile)
    (ss : SessionState) : SessionState * list Request * (string + string) :=
  let request := transcription_request audio_file in
  match api request with
  | Raised e => (ss, [request], inl e)
  | Returned transcription =>
      (set_segments ss (tr_segments transcription), [request],
       inr (tr_text transcription))
  end.

(** Line 68. *)
Definition size_limit : N := 20 * 1024 * 1024.

(** Lines 61-100: the upload section. *)
Definition upload_section (api : Request → ApiResult) (inp : RunInput)
    (ss : SessionState) : SessionState * list Element * list Request :=
  match in_uploaded_file inp with
  | None => (ss, [], [])
  | Some uploaded_file =>
      if size_limit <? file_size uploaded_file then
        (ss,
         [AudioPlayer;
          ErrorBox "❌ File size exceeds the 20MB limit. Please upload a smaller file."],
         [])
      else if in_button inp then
        match process_audio api uploaded_file ss with
        | (ss', calls, inr transcript) =>
            (set_transcript ss' transcript,
             [AudioPlayer; SuccessBox "✅ Processing complete! Transcript is ready."],
             calls)
        | (ss', calls, inl e) =>
            (ss', [AudioPlayer; ErrorBox ("❌ An error occurred: " +:+ e)], calls)
        end
      else (ss, [AudioPlayer], [])
  end.

(** Line 142. *)
Definition segment_key (segment : Segment) : string :=
  "segment_" +:+ format_repr (seg_start segment).

(** Lines 143-146: [st.session_state['edited_segments'].get(segment_key,
    segment['text'])]. *)
Definition initial_text (edited_segments : gmap string string)
    (segment : Segment) : string :=
  default (seg_text segment) (edited_segments !! segment_key segment).

(** Line 157: [st.session_state['edited_segments'][segment_key] = edited_text]. *)
Definition store_edited_text (edited_segments : gmap string string)
    (key edited_text : string) : gmap string string :=
  <[key := edited_text]> edited_segments.

(** Lines 139, 149 and 160. *)
Definition time_caption (segment : Segment) : string :=
  format_2f (seg_start segment) +:+ "s - " +:+ format_2f (seg_end segment) +:+ "s".

Definition area_label (segment : Segment) : string :=
  "Transcript segment " +:+ format_2f (seg_start segment) +:+ "-" +:+
  format_2f (seg_end segment).

Definition time_range (segment : Segment) : string :=
  format_2f (seg_start segment) +:+ " - " +:+ format_2f (seg_end segment).

(** The state of the loop of lines 136-162: the widget keys registered so
    far, the dictionary ['edited_segments'] (mutated in place), the list
    [segments_data], and the elements drawn. *)
Record LoopState : Type := mkLoopState {
  ls_used : list string;
  ls_edited_segments : gmap string string;
  ls_segments_data : list Row;
  ls_page : list Element
}.

(** Lines 136-162.  When [st.text_area] raises, the script stops there: the
    writes already made to the dictionary stay. *)
Fixpoint render_segments (widgets : gmap string string)
    (segments : list Segment) (ls : LoopState) : LoopState * option string :=
  match segments with
  | [] => (ls, None)
  | segment :: rest =>
      let key := segment_key segment in
      let initial := initial_text (ls_edited_segments ls) segment in
      match text_area widgets (ls_used ls) key initial with
      | DuplicateWidgetID k =>
          (mkLoopState (ls_used ls) (ls_edited_segments ls)
             (ls_segments_data ls)
             (ls_page ls ++ [TimeLabel (time_caption segment)]),
           Some k)
      | Ok edited_text =>
          render_segments widgets rest
            (mkLoopState (key :: ls_used ls)
               (store_edited_text (ls_edited_segments ls) key edited_text)
               (ls_segments_data ls ++ [mkRow (time_range segment) edited_text])
               (ls_page ls ++ [TimeLabel (time_caption segment);
                               SegmentTextArea key (area_label segment) edited_text]))
      end
  end.

(** Lines 109-114: the text in the full-transcript editor. *)
Definition edited_full_transcript (widgets : gmap string string)
    (transcript : string) : Outcome string :=
  text_area widgets [] "transcript_display" transcript.

(** Lines 103-176: the display section. *)
Definition display_section (widgets : gmap string string) (ss : SessionState)
    : SessionState * list Element :=
  match ss_transcript ss with
  | None => (ss, [])
  | Some transcript =>
      match edited_full_transcript widgets transcript with
      | DuplicateWidgetID k => (ss, [ScriptException k])
      | Ok edited =>
          let ss1 := set_edited_transcript ss edited in
          let page1 := [FullTextArea edited; DownloadTxt edited] in
          let segments := default [] (ss_segments ss1) in
          let edited_segments := default ∅ (ss_edited_segments ss1) in
          let '(ls, raised) :=
            render_segments widgets segments
              (mkLoopState ["transcript_display"] edited_segments [] page1) in
          let ss2 := set_edited_segments ss1 (ls_edited_segments ls) in
          match raised with
          | Some k => (ss2, ls_page ls ++ [ScriptException k])
          | None =>
              (ss2,
               ls_page ls ++
               match ls_segments_data ls with
               | [] => []
               | _ :: _ => [DownloadXlsx (ls_segments_data ls)]
               end)
          end
      end
  end.

(** One execution of the script. *)
Definition run (api : Request → ApiResult) (inp : RunInput) (ss : SessionState)
    : SessionState * list Element * list Request :=
  let '(ss1, page1, calls) := upload_section api inp ss in
  let '(ss2, page2) := display_section (in_widgets inp) ss1 in
  (ss2, page1 ++ page2, calls).

(** A browser session: the script is executed once per interaction, each
    execution starting from the state the previous one left.  The result is
    the final state and the page of the last execution. *)
Fixpoint session (api : Request → ApiResult) (inps : list RunInput)
    (ss : SessionState) (page : list Element) : SessionState * list Element :=
  match inps with
  | [] => (ss, page)
  | inp :: rest =>
      let '(ss', page', _) := run api inp ss in
      session api rest ss' page'
  end.

(** ** Reading a page *)

(** The segment editors on a page: key and text shown, top to bottom. *)
Fixpoint shown_segments (page : list Element) : list (string * string) :=
  match page with
  | [] => []
  | SegmentTextArea key _ shown :: rest => (key, shown) :: shown_segments rest
  | _ :: rest => shown_segments rest
  end.

(** The text in the full-transcript editor, if the page has one. *)
Fixpoint shown_full_text (page : list Element) : option string :=
  match page with
  | [] => None
  | FullTextArea shown :: _ => Some shown
  | _ :: rest => shown_full_text rest
  end.

(** The rows behind the spreadsheet download, if the page offers it. *)
Fixpoint exported_rows (page : list Element) : option (list Row) :=
  match page with
  | [] => None
  | DownloadXlsx rows :: _ => Some rows
  | _ :: rest => exported_rows rest
  end.

(** The content behind the text download, if the page offers it. *)
Fixpoint exported_text (page : list Element) : option string :=
  match page with
  | [] => None
  | DownloadTxt data :: _ => Some data
  | _ :: rest => exported_text rest
  end.

(** The exception that stopped the script, if any. *)
Fixpoint raised_on (page : list Element) : option string :=
  match page with
  | [] => None
  | ScriptException k :: _ => Some k
  | _ :: rest => raised_on rest
  end.

(** ** What the loop over the segments comes to *)

(** The text an editor shows for a segment: what the widget holds under the
    segment's key, else the entry of the dictionary, else the original. *)
Definition shown_text (widgets edited_segments : gmap string string)
    (segment : Segment) : string :=
  default (initial_text edited_segments segment) (widgets !! segment_key segment).

Definition segment_row (widgets edited_segments : gmap string string)
    (segment : Segment) : Row :=
  mkRow (time_range segment) (shown_text widgets edited_segments segment).

Definition segment_elements (widgets edited_segments : gmap string string)
    (segment : Segment) : list Element :=
  [TimeLabel (time_caption segment);
   SegmentTextArea (segment_key segment) (area_label segment)
     (shown_text widgets edited_segments segment)].

(** The segments the loop gets through: those before the first one whose
    key was already used. *)
Fixpoint rendered (used : list string) (segments : list Segment) : list Segment :=
  match segments with
  | [] => []
  | segment :: rest =>
      if decide (segment_key segment ∈ used) then []
      else segment :: rendered (segment_key segment :: used) rest
  end.

(** The first segment whose key was already used, where the loop stops. *)
Fixpoint first_clash (used : list string) (segments : list Segment)
    : option Segment :=
  match segments with
  | [] => None
  | segment :: rest =>
      if decide (segment_key segment ∈ used) then Some segment
      else first_clash (segment_key segment :: used) rest
  end.

Definition store_all (widgets edited_segments : gmap string string)
    (segments : list Segment) (acc : gmap string string) : gmap string string :=
  foldl (λ acc segment,
           store_edited_text acc (segment_key segment)
             (shown_text widgets edited_segments segment))
        acc segments.

(** The display section in closed form: the state it leaves and the page
    it draws, from the session state and the widget values. *)
Definition display_view (widgets : gmap string string) (ss : SessionState)
    : SessionState * list Element :=
  match ss_transcript ss with
  | None => (ss, [])
  | Some transcript =>
      let edited := default transcript (widgets !! "transcript_display") in
      let es := default ∅ (ss_edited_segments ss) in
      let segments := default [] (ss_segments ss) in
      let R := rendered [] segments in
      (mkSessionState (ss_segments ss) (Some transcript) (Some edited)
         (Some (store_all widgets es R es)),
       [FullTextArea edited; DownloadTxt edited] ++
       (R ≫= segment_elements widgets es) ++
       match first_clash [] segments with
       | Some s => [TimeLabel (time_caption s); ScriptException (segment_key s)]
       | None =>
           match R with
           | [] => []
           | _ :: _ => [DownloadXlsx (segment_row widgets es <$> R)]
           end
       end)
  end.

(** ** Sample inputs *)

(** Two segments, one second each. *)
Definition greeting : Transcription :=
  mkTranscription "hello world"
    [mkSegment 0 100 "hello"; mkSegment 100 200 "world"].

(** One segment that, like the first of [greeting], starts at 0.0. *)
Definition farewell : Transcription :=
  mkTranscription "good bye" [mkSegment 0 150 "good bye"].

(** A segment of no duration at 1.0, and the next one starting there. *)
Definition hesitation : Transcription :=
  mkTranscription "um well then"
    [mkSegment 100 100 "um"; mkSegment 100 250 "well then"].

Definition file_a : UploadedFile := mkUploadedFile 1000 "A".
Definition file_b : UploadedFile := mkUploadedFile 2000 "B".
Definition file_c : UploadedFile := mkUploadedFile 3000 "C".
Definition file_d : UploadedFile := mkUploadedFile 4000 "D".
Definition file_huge : UploadedFile := mkUploadedFile (size_limit + 1) "A".

(** A service that knows three recordings and fails on anything else. *)
Definition service (request : Request) : ApiResult :=
  if decide (req_file request = "A") then Returned greeting
  else if decide (req_file request = "B") then Returned farewell
  else if decide (req_file request = "C") then Returned hesitation
  else Raised "Connection error.".

(** Upload and press the button; upload or leave as is, with the widgets
    holding [widgets]. *)
Definition press (f : UploadedFile) : RunInput := mkRunInput (Some f) true ∅.
Definition rerun (f : UploadedFile) (widgets : gmap string string) : RunInput :=
  mkRunInput (Some f) false widgets.

(** ** The editor's height and the temporary file *)

(** Line 152: the height handed to a segment editor,
    [max(68, len(initial_text) // 40 * 30)], from the length of the text. *)
Definition area_height (len : N) : N := N.max 68 (len / 40 * 30).

(** Lines 16-34 once more, with the temporary file in view.  [fs] maps the
    paths of the files on disk to their content and [temp_path] is the path
    [tempfile.NamedTemporaryFile] picks.  The upload is written there
    (lines 18-20) and read back (lines 23 and 25); line 25 hands the service
    [file=(temp_path, file.read())], the name of the file and its bytes, so
    the service is a function of the name and of the request, and the calls
    are recorded with the name; [os.unlink] (line 32) comes after the call
    and is not reached when the call raises. *)
Definition process_audio_files (api : string → Request → ApiResult)
    (audio_file : UploadedFile) (temp_path : string)
    (fs : gmap string string) (ss : SessionState)
    : gmap string string
      * (SessionState * list (string * Request) * (string + string)) :=
  let fs1 := <[temp_path := file_value audio_file]> fs in
  match fs1 !! temp_path with
  | None => (fs1, (ss, [], inl "FileNotFoundError"))
  | Some content =>
      let request :=
        {| req_file := content;
           req_model := "whisper-large-v3";
           req_language := "vi";
           req_response_format := "verbose_json" |} in
      match api temp_path request with
      | Raised e => (fs1, (ss, [(temp_path, request)], inl e))
      | Returned transcription =>
          (delete temp_path fs1,
           (set_segments ss (tr_segments transcription),
            [(temp_path, request)], inr (tr_text transcription)))
      end
  end.

(** A session state with all four entries, and a page with nothing of a
    transcript on it. *)
Definition populated (ss : SessionState) : Prop :=
  is_Some (ss_segments ss) ∧ is_Some (ss_transcript ss)
  ∧ is_Some (ss_edited_transcript ss) ∧ is_Some (ss_edited_segments ss).

Definition transcript_free (page : list Element) : Prop :=
  shown_full_text page = None ∧ shown_segments page = []
  ∧ exported_text page = None ∧ exported_rows page = None
  ∧ raised_on page = None.

(** A service that is down. *)
Definition service_down (request : Request) : ApiResult :=
  Raised "Service unavailable.".

(** ** Formatting *)

Example format_2f_0 : format_2f 0 = "0.00". Proof. reflexivity. Qed.

Example format_2f_105 : format_2f 105 = "1.05". Proof. reflexivity. Qed.

Example format_repr_0 : format_repr 0 = "0.0". Proof. reflexivity. Qed.

Example format_repr_150 : format_repr 150 = "1.5". Proof. reflexivity. Qed.

Example format_repr_1234 : format_repr 1234 = "12.34". Proof. reflexivity. Qed.

Lemma no_point_pretty_N_go x s : no_point s → no_point (pretty_N_go x s).
Proof.
  revert s. induction (N.lt_wf_0 x) as [x _ IH]; intros s Hs.
  destruct (decide (x = 0)) as [->|Hx]; [by rewrite pretty_N_go_0|].
  rewrite pretty_N_go_step by lia. apply IH; [apply N.div_lt; lia|].
  split; [|done]. unfold pretty_N_char. by repeat case_match.
Qed.

Lemma no_point_pretty (n : N) : no_point (pretty n).
Proof.
  unfold pretty, pretty_N. case_decide; [by repeat split|].
  by apply no_point_pretty_N_go.
Qed.

(** Two strings with a point each, and none before it, that are equal are
    equal before the point and after it. *)
Lemma append_point_inj a b x y :
  no_point a → no_point b →
  a +:+ "." +:+ x = b +:+ "." +:+ y → a = b ∧ x = y.
Proof.
  revert b. induction a as [|c a IH]; intros [|d b]; cbn.
  - intros _ _ [= Heq]. by split.
  - intros _ [Hd _] [= Hc _]. by destruct Hd.
  - intros [Hc _] _ [= Hd _]. by destruct Hc.
  - intros [_ Ha] [_ Hb] [= Hc Heq].
    destruct (IH b Ha Hb Heq) as [Hab Hxy]. by subst.
Qed.

Lemma fraction_digits_inj r1 r2 :
  r1 < 100 → r2 < 100 → fraction_digits r1 = fraction_digits r2 → r1 = r2.
Proof.
  intros H1 H2 Heq.
  assert (Hin : ∀ r, r < 100 → In r hundredths).
  { intros r Hr. unfold hundredths. apply list_elem_of_In, list_elem_of_fmap.
    exists (N.to_nat r). split; [lia|]. apply elem_of_seq. lia. }
  assert (Hc : fraction_digits_distinct = true) by (vm_compute; reflexivity).
  unfold fraction_digits_distinct in Hc.
  rewrite forallb_forall in Hc. specialize (Hc r1 (Hin r1 H1)).
  rewrite forallb_forall in Hc. specialize (Hc r2 (Hin r2 H2)).
  rewrite Heq, String.eqb_refl in Hc. by apply N.eqb_eq.
Qed.

(** [repr] tells any two time stamps apart. *)
Lemma format_repr_inj t1 t2 : format_repr t1 = format_repr t2 → t1 = t2.
Proof.
  unfold format_repr. intros Heq.
  apply append_point_inj in Heq as [Hq Hr]; [|apply no_point_pretty..].
  apply (inj pretty) in Hq.
  apply fraction_digits_inj in Hr; [|by apply N.mod_lt..].
  rewrite (N.div_mod t1 100), (N.div_mod t2 100) by done. by rewrite Hq, Hr.
Qed.

(** ** Segment keys *)

Lemma segment_key_same_start s1 s2 :
  seg_start s1 = seg_start s2 → segment_key s1 = segment_key s2.
Proof. unfold segment_key. by intros ->. Qed.

(** Two segments have the same key exactly when they have the same start. *)
Lemma segment_key_eq_iff s1 s2 :
  segment_key s1 = segment_key s2 ↔ seg_start s1 = seg_start s2.
Proof.
  split; [|apply segment_key_same_start].
  unfold segment_key. simpl. intros [= Heq]. by apply format_repr_inj.
Qed.

Lemma segment_keys_NoDup (segments : list Segment) :
  NoDup (segment_key <$> segments) ↔ NoDup (seg_start <$> segments).
Proof.
  induction segments as [|s rest IH]; csimpl; [by split; constructor|].
  rewrite !NoDup_cons, IH. apply and_iff_compat_r.
  rewrite !list_elem_of_fmap. split; intros Hn (x & Hx & Hin); apply Hn;
    exists x; (split; [|done]).
  - by apply segment_key_same_start.
  - by apply segment_key_eq_iff.
Qed.

(** A segment key is never the key of the full-transcript editor. *)
Lemma segment_key_not_transcript_display s :
  segment_key s ≠ "transcript_display".
Proof. unfold segment_key. simpl. discriminate. Qed.

(** ** The dictionary of edits *)

(** A text stored under one key does not change what another key maps to. *)
Lemma store_edited_text_other (es : gmap string string) (k k' t : string) :
  k ≠ k' → store_edited_text es k t !! k' = es !! k'.
Proof. intros Hne. unfold store_edited_text. by rewrite lookup_insert_ne. Qed.

(** ** The loop over the segments *)

Lemma rendered_fresh used segments s :
  s ∈ rendered used segments → segment_key s ∉ used.
Proof.
  revert used. induction segments as [|a rest IH]; intros used; simpl.
  - by intros ?%elem_of_nil.
  - case_decide as Hin; [by intros ?%elem_of_nil|].
    intros [->|Hs]%elem_of_cons; [done|].
    apply IH in Hs. by intros ?; apply Hs; right.
Qed.

Lemma rendered_prefix used segments : rendered used segments `prefix_of` segments.
Proof.
  revert used. induction segments as [|s rest IH]; intros used; simpl; [done|].
  case_decide; [apply prefix_nil|]. by apply prefix_cons.
Qed.

Lemma rendered_keys_NoDup used segments :
  NoDup (segment_key <$> rendered used segments).
Proof.
  revert used. induction segments as [|s rest IH]; intros used; csimpl.
  - constructor.
  - case_decide as Hin; csimpl; constructor; [|apply IH].
    intros (x & Hk & Hx)%list_elem_of_fmap_1.
    apply rendered_fresh in Hx. apply Hx. rewrite <- Hk. by left.
Qed.

(** With pairwise distinct keys the loop gets through every segment. *)
Lemma rendered_NoDup used segments :
  NoDup (segment_key <$> segments) →
  (∀ s, s ∈ segments → segment_key s ∉ used) →
  rendered used segments = segments ∧ first_clash used segments = None.
Proof.
  revert used. induction segments as [|s rest IH]; intros used Hnd Hused; [done|].
  csimpl in *. apply NoDup_cons in Hnd as [Hs Hnd].
  case_decide as Hin; [by apply Hused in Hin; [|left]|].
  destruct (IH (segment_key s :: used) Hnd) as [-> ->]; [|done].
  intros x Hx [Heq|Hxu]%elem_of_cons.
  - apply Hs. rewrite <- Heq. by apply list_elem_of_fmap_2.
  - by apply (Hused x); [right|].
Qed.

(** And conversely: the loop gets through every segment only if the keys
    are pairwise distinct. *)
Lemma first_clash_None used segments :
  first_clash used segments = None →
  NoDup (segment_key <$> segments) ∧ ∀ s, s ∈ segments → segment_key s ∉ used.
Proof.
  revert used. induction segments as [|s rest IH]; intros used; csimpl.
  - intros _. split; [constructor|]. by intros ? ?%elem_of_nil.
  - case_decide as Hin; [done|]. intros [Hnd Hfresh]%IH. split.
    + constructor; [|done]. intros (x & Hk & Hx)%list_elem_of_fmap_1.
      apply (Hfresh x Hx). rewrite <- Hk. by left.
    + intros x [->|Hx]%elem_of_cons; [done|].
      intros ?. apply (Hfresh x Hx). by right.
Qed.

Lemma rendered_transcript_display segments used :
  rendered (used ++ ["transcript_display"]) segments = rendered used segments
  ∧ first_clash (used ++ ["transcript_display"]) segments
    = first_clash used segments.
Proof.
  revert used. induction segments as [|s rest IH]; intros used; simpl; [done|].
  destruct (IH (segment_key s :: used)) as [IH1 IH2].
  repeat case_decide; try done.
  - exfalso. apply elem_of_app in H as [?|Hd%list_elem_of_singleton]; [done|].
    by apply segment_key_not_transcript_display in Hd.
  - exfalso. apply H. apply elem_of_app. by left.
  - simpl in *. by rewrite IH1, IH2.
Qed.

Lemma shown_text_store w es k v s :
  segment_key s ≠ k →
  shown_text w (store_edited_text es k v) s = shown_text w es s.
Proof.
  intros Hne. unfold shown_text, initial_text, store_edited_text.
  by rewrite lookup_insert_ne.
Qed.

Lemma shown_text_store_rendered w es k v used segments s :
  s ∈ rendered (k :: used) segments →
  shown_text w (store_edited_text es k v) s = shown_text w es s.
Proof.
  intros Hs%rendered_fresh. apply shown_text_store.
  intros <-. apply Hs. by left.
Qed.

Lemma shown_text_stored w es es1 s :
  es1 !! segment_key s = Some (shown_text w es s) →
  shown_text w es1 s = shown_text w es s.
Proof.
  intros H. unfold shown_text at 1. unfold initial_text. rewrite H.
  unfold shown_text. by destruct (w !! segment_key s).
Qed.

Lemma fmap_agree {A B} (f g : A → B) (l : list A) :
  (∀ x, x ∈ l → f x = g x) → f <$> l = g <$> l.
Proof.
  induction l as [|a l IH]; intros H; csimpl; [done|].
  rewrite H by (by left). rewrite IH; [done|].
  intros x Hx. apply H. by right.
Qed.

Lemma bind_agree {A B} (f g : A → list B) (l : list A) :
  (∀ x, x ∈ l → f x = g x) → l ≫= f = l ≫= g.
Proof.
  induction l as [|a l IH]; intros H; csimpl; [done|].
  rewrite H by (by left). rewrite IH; [done|].
  intros x Hx. apply H. by right.
Qed.

Lemma fmap_prefix_of {A B} (f : A → B) (l1 l2 : list A) :
  l1 `prefix_of` l2 → f <$> l1 `prefix_of` f <$> l2.
Proof. intros [k ->]. exists (f <$> k). apply fmap_app. Qed.

Lemma store_all_agree w es es' (l : list Segment) acc :
  (∀ x, x ∈ l → shown_text w es' x = shown_text w es x) →
  store_all w es' l acc = store_all w es l acc.
Proof.
  unfold store_all. revert acc.
  induction l as [|a l IH]; intros acc H; simpl; [done|].
  rewrite H by (by left). apply IH.
  intros x Hx. apply H. by right.
Qed.

Lemma store_all_lookup_other w es (R : list Segment) acc k :
  k ∉ segment_key <$> R → store_all w es R acc !! k = acc !! k.
Proof.
  unfold store_all. revert acc.
  induction R as [|s R IH]; intros acc Hk; csimpl in *; [done|].
  apply not_elem_of_cons in Hk as [Hne Hk].
  rewrite IH by done. by apply store_edited_text_other.
Qed.

Lemma store_all_lookup w es (R : list Segment) acc s :
  NoDup (segment_key <$> R) → s ∈ R →
  store_all w es R acc !! segment_key s = Some (shown_text w es s).
Proof.
  revert acc. induction R as [|a R IH]; intros acc Hnd Hs; csimpl in *.
  - by apply elem_of_nil in Hs.
  - apply NoDup_cons in Hnd as [Ha Hnd].
    apply elem_of_cons in Hs as [->|Hs].
    + change (store_all w es R
                (store_edited_text acc (segment_key a) (shown_text w es a))
              !! segment_key a = Some (shown_text w es a)).
      rewrite store_all_lookup_other by done.
      unfold store_edited_text. apply lookup_insert_eq.
    + by apply IH.
Qed.

Lemma store_all_id w es (R : list Segment) acc :
  (∀ s, s ∈ R → acc !! segment_key s = Some (shown_text w es s)) →
  store_all w es R acc = acc.
Proof.
  unfold store_all. induction R as [|a R IH]; intros H; csimpl; [done|].
  unfold store_edited_text at 2. rewrite insert_id by (apply H; by left).
  apply IH. intros s Hs. apply H. by right.
Qed.

(** The loop, in closed form: it gets through [rendered], draws and stores
    the shown text of each, and raises at [first_clash]. *)
Lemma render_segments_spec w segments ls :
  let es := ls_edited_segments ls in
  let R := rendered (ls_used ls) segments in
  render_segments w segments ls =
    (mkLoopState
       (reverse (segment_key <$> R) ++ ls_used ls)
       (store_all w es R es)
       (ls_segments_data ls ++ (segment_row w es <$> R))
       (ls_page ls ++ (R ≫= segment_elements w es) ++
        match first_clash (ls_used ls) segments with
        | Some s => [TimeLabel (time_caption s)]
        | None => []
        end),
     segment_key <$> first_clash (ls_used ls) segments).
Proof.
  revert ls. induction segments as [|s rest IH]; intros [used es data page]; csimpl.
  - by rewrite !app_nil_r.
  - unfold text_area. case_decide as Hin; csimpl.
    + by rewrite !app_nil_r.
    + rewrite IH. csimpl.
      fold (shown_text w es s).
      set (es' := store_edited_text es (segment_key s) (shown_text w es s)).
      set (R := rendered (segment_key s :: used) rest).
      assert (HR : ∀ x, x ∈ R → shown_text w es' x = shown_text w es x).
      { intros x Hx. by eapply shown_text_store_rendered. }
      rewrite (store_all_agree w es es' R es' HR).
      rewrite (fmap_agree (segment_row w es') (segment_row w es) R).
      2:{ intros x Hx. unfold segment_row. by rewrite HR. }
      rewrite (bind_agree (segment_elements w es') (segment_elements w es) R).
      2:{ intros x Hx. unfold segment_elements. by rewrite HR. }
      rewrite reverse_cons, <- !(assoc_L (++)). csimpl.
      reflexivity.
Qed.

(** ** Reading a page that was put together from parts *)

Lemma shown_segments_app p q :
  shown_segments (p ++ q) = shown_segments p ++ shown_segments q.
Proof.
  induction p as [|e p IH]; [done|]. destruct e; csimpl; by rewrite ?IH.
Qed.

Lemma shown_segments_elements w es (R : list Segment) :
  shown_segments (R ≫= segment_elements w es)
  = (λ s, (segment_key s, shown_text w es s)) <$> R.
Proof. induction R as [|s R IH]; [done|]. csimpl. by rewrite IH. Qed.

Lemma exported_rows_elements w es (R : list Segment) q :
  exported_rows ((R ≫= segment_elements w es) ++ q) = exported_rows q.
Proof. induction R as [|s R IH]; [done|]. by csimpl. Qed.

Lemma raised_on_elements w es (R : list Segment) q :
  raised_on ((R ≫= segment_elements w es) ++ q) = raised_on q.
Proof. induction R as [|s R IH]; [done|]. by csimpl. Qed.

(** ** The display section *)

Lemma display_section_spec w ss : display_section w ss = display_view w ss.
Proof.
  unfold display_section, display_view.
  destruct (ss_transcript ss) as [transcript|] eqn:Ht; [|done].
  unfold edited_full_transcript, text_area.
  case_decide as Hin; [by apply elem_of_nil in Hin|].
  rewrite render_segments_spec.
  cbn [ls_used ls_edited_segments ls_segments_data ls_page
       set_edited_transcript ss_segments ss_edited_segments ss_transcript
       ss_edited_transcript set_edited_segments].
  destruct (rendered_transcript_display (default [] (ss_segments ss)) [])
    as [H1 H2].
  simpl in H1, H2. rewrite H1, H2. clear H1 H2.
  unfold set_edited_segments, set_edited_transcript.
  cbn [ss_segments ss_transcript ss_edited_transcript ss_edited_segments].
  rewrite Ht.
  destruct (first_clash [] (default [] (ss_segments ss))) as [s|]; csimpl.
  - by rewrite <- !(assoc_L (++)).
  - rewrite !app_nil_r.
    by destruct (rendered [] (default [] (ss_segments ss))).
Qed.

Lemma shown_segments_display_view w ss :
  shown_segments (display_view w ss).2
  = (λ s, (segment_key s, shown_text w (default ∅ (ss_edited_segments ss)) s))
    <$> match ss_transcript ss with
        | Some _ => rendered [] (default [] (ss_segments ss))
        | None => []
        end.
Proof.
  unfold display_view. destruct (ss_transcript ss); [|done]. cbn [snd].
  cbn [app shown_segments]. rewrite shown_segments_app, shown_segments_elements.
  destruct (first_clash _ _); [by rewrite app_nil_r|].
  destruct (rendered _ _); by rewrite app_nil_r.
Qed.

(** When two segments of the list have the same key the page has no
    spreadsheet download and ends with the exception. *)
Lemma display_clash w ss s :
  is_Some (ss_transcript ss) →
  first_clash [] (default [] (ss_segments ss)) = Some s →
  let page := (display_section w ss).2 in
  raised_on page = Some (segment_key s) ∧ exported_rows page = None.
Proof.
  intros [transcript Ht] Hc. rewrite display_section_spec. unfold display_view.
  rewrite Ht, Hc. cbn [snd app raised_on exported_rows].
  by rewrite raised_on_elements, exported_rows_elements.
Qed.

(** When the keys are pairwise distinct every segment has its editor, in the
    order of the list, and the spreadsheet has one row per segment, in that
    order, with the time range and the text of the editor. *)
Lemma display_distinct_keys w ss transcript segments :
  ss_transcript ss = Some transcript →
  ss_segments ss = Some segments →
  NoDup (segment_key <$> segments) →
  let es := default ∅ (ss_edited_segments ss) in
  let page := (display_section w ss).2 in
  shown_segments page = (λ s, (segment_key s, shown_text w es s)) <$> segments
  ∧ raised_on page = None
  ∧ exported_rows page
    = match segments with
      | [] => None
      | _ :: _ =>
          Some ((λ s, mkRow (format_2f (seg_start s) +:+ " - " +:+
                             format_2f (seg_end s))
                        (shown_text w es s)) <$> segments)
      end.
Proof.
  intros Ht Hs Hnd.
  destruct (rendered_NoDup [] segments Hnd) as [HR Hc].
  { by intros ? _ ?%elem_of_nil. }
  cbn zeta. rewrite display_section_spec.
  split; [|split].
  - rewrite shown_segments_display_view, Ht, Hs. cbn [from_option id]. by rewrite HR.
  - unfold display_view. rewrite Ht, Hs. cbn [from_option id]. rewrite HR, Hc.
    cbn [snd app raised_on]. rewrite raised_on_elements.
    by destruct segments.
  - unfold display_view. rewrite Ht, Hs. cbn [from_option id]. rewrite HR, Hc.
    cbn [snd app exported_rows]. rewrite exported_rows_elements.
    by destruct segments.
Qed.

(** The same, for segments with pairwise distinct starts. *)
Lemma display_distinct_starts w ss transcript segments :
  ss_transcript ss = Some transcript →
  ss_segments ss = Some segments →
  NoDup (seg_start <$> segments) →
  let es := default ∅ (ss_edited_segments ss) in
  let page := (display_section w ss).2 in
  shown_segments page = (λ s, (segment_key s, shown_text w es s)) <$> segments
  ∧ raised_on page = None
  ∧ exported_rows page
    = match segments with
      | [] => None
      | _ :: _ =>
          Some ((λ s, mkRow (format_2f (seg_start s) +:+ " - " +:+
                             format_2f (seg_end s))
                        (shown_text w es s)) <$> segments)
      end.
Proof.
  intros Ht Hs Hnd. apply (display_distinct_keys w ss transcript); [done..|].
  by apply segment_keys_NoDup.
Qed.

(** The display section gets to its end exactly when the segments have
    pairwise distinct starts. *)
Lemma display_raises_iff w ss :
  is_Some (ss_transcript ss) →
  raised_on (display_section w ss).2 = None
  ↔ NoDup (seg_start <$> default [] (ss_segments ss)).
Proof.
  intros [transcript Ht]. rewrite display_section_spec, <- segment_keys_NoDup.
  unfold display_view. rewrite Ht. cbn [snd app raised_on].
  rewrite raised_on_elements.
  destruct (first_clash [] (default [] (ss_segments ss))) as [s|] eqn:Hc.
  - split; [done|]. intros Hnd.
    destruct (rendered_NoDup [] _ Hnd) as [_ Hc'];
      [by intros ? _ ?%elem_of_nil|congruence].
  - split; [intros _; by apply first_clash_None in Hc as [? _]|].
    intros _. by destruct (rendered [] _).
Qed.

(** Executing the display section a second time with the widgets holding
    the same texts draws the same page and leaves the same state: texts
    already stored are stored again, not added. *)
Lemma display_section_again w ss :
  display_section w (display_section w ss).1 = display_section w ss.
Proof.
  rewrite !display_section_spec. unfold display_view at 2 3.
  destruct (ss_transcript ss) as [transcript|] eqn:Ht;
    [|by unfold display_view; cbn [fst]; rewrite Ht].
  cbn [fst]. unfold display_view.
  cbn [ss_transcript ss_segments ss_edited_segments from_option id].
  set (es := default ∅ (ss_edited_segments ss)).
  set (segments := default [] (ss_segments ss)).
  set (R := rendered [] segments).
  set (es1 := store_all w es R es).
  assert (Hl : ∀ s, s ∈ R → es1 !! segment_key s = Some (shown_text w es s)).
  { intros s Hs. apply store_all_lookup; [apply rendered_keys_NoDup|done]. }
  assert (HR : ∀ s, s ∈ R → shown_text w es1 s = shown_text w es s).
  { intros s Hs. by apply shown_text_stored, Hl. }
  rewrite (store_all_agree w es es1 R es1 HR), (store_all_id w es R es1 Hl).
  rewrite (bind_agree (segment_elements w es1) (segment_elements w es) R).
  2:{ intros x Hx. unfold segment_elements. by rewrite HR. }
  rewrite (fmap_agree (segment_row w es1) (segment_row w es) R).
  2:{ intros x Hx. unfold segment_row. by rewrite HR. }
  reflexivity.
Qed.

(** ** The upload section *)

(** The upload section either leaves the session state as it was, or the
    service has returned a transcription and the state holds its segments
    and its text; in both cases the dictionary of edits is the one it was. *)
Lemma upload_section_cases api inp ss :
  let ss' := (upload_section api inp ss).1.1 in
  (ss' = ss
   ∨ ∃ f t, in_uploaded_file inp = Some f
            ∧ api (transcription_request f) = Returned t
            ∧ ss' = set_transcript (set_segments ss (tr_segments t)) (tr_text t))
  ∧ ss_edited_segments ss' = ss_edited_segments ss.
Proof.
  unfold upload_section, process_audio.
  destruct (in_uploaded_file inp) as [f|]; [|by split; [left|]].
  destruct (size_limit <? file_size f); [by split; [left|]|].
  destruct (in_button inp); [|by split; [left|]].
  destruct (api (transcription_request f)) as [e|t] eqn:Hapi;
    [by split; [left|]|].
  split; [right; by exists f, t|done].
Qed.

(** When the upload section leaves the state as it was, the execution ends
    in the state the display section leads to. *)
Lemma run_state_unchanged_upload api inp ss page calls :
  upload_section api inp ss = (ss, page, calls) →
  (run api inp ss).1.1 = (display_section (in_widgets inp) ss).1.
Proof.
  intros Hu. unfold run. rewrite Hu.
  by destruct (display_section (in_widgets inp) ss).
Qed.

(** The requests of an execution: one, for the uploaded file, when the file
    is within the limit and the button was pressed, and none otherwise. *)
Lemma run_calls api inp ss :
  (run api inp ss).2
  = match in_uploaded_file inp with
    | Some f =>
        if (size_limit <? file_size f) then []
        else if in_button inp then [transcription_request f] else []
    | None => []
    end.
Proof.
  unfold run, upload_section, process_audio.
  destruct (in_uploaded_file inp) as [f|];
    [|by destruct (display_section (in_widgets inp) ss)].
  destruct (size_limit <? file_size f);
    [by destruct (display_section (in_widgets inp) ss)|].
  destruct (in_button inp);
    [|by destruct (display_section (in_widgets inp) ss)].
  destruct (api (transcription_request f));
    by destruct (display_section _ _).
Qed.

(** An execution in which the service returns a transcription: the display
    section starts from the new segments and the new transcript, and from
    the dictionary of edits as the previous execution left it. *)
Lemma run_returned api inp ss f t :
  in_uploaded_file inp = Some f →
  (file_size f ≤ size_limit)%N →
  in_button inp = true →
  api (transcription_request f) = Returned t →
  run api inp ss
  = (let '(ss', page) :=
       display_section (in_widgets inp)
         (mkSessionState (Some (tr_segments t)) (Some (tr_text t))
            (ss_edited_transcript ss) (ss_edited_segments ss)) in
     (ss',
      [AudioPlayer; SuccessBox "✅ Processing complete! Transcript is ready."]
      ++ page,
      [transcription_request f])).
Proof.
  intros Hf Hsize Hb Hapi. unfold run, upload_section, process_audio.
  rewrite Hf, Hb, Hapi.
  by destruct (N.ltb_spec size_limit (file_size f)); [lia|].
Qed.

(** So the editor of a segment of the new transcription shows whatever the
    dictionary already has under the segment's key. *)
Lemma stale_entry_shown api inp ss f t s es old :
  in_uploaded_file inp = Some f →
  (file_size f ≤ size_limit)%N →
  in_button inp = true →
  api (transcription_request f) = Returned t →
  tr_segments t = [s] →
  ss_edited_segments ss = Some es →
  es !! segment_key s = Some old →
  in_widgets inp !! segment_key s = None →
  shown_segments (run api inp ss).1.2 = [(segment_key s, old)].
Proof.
  intros Hf Hsize Hb Hapi Hs Hes Hold Hw.
  rewrite (run_returned api inp ss f t Hf Hsize Hb Hapi).
  destruct (display_section _ _) as [ss' page] eqn:Hd. cbn [fst snd].
  rewrite shown_segments_app. cbn [shown_segments app].
  change page with (ss', page).2. rewrite <- Hd.
  destruct (display_distinct_keys (in_widgets inp)
              (mkSessionState (Some (tr_segments t)) (Some (tr_text t))
                 (ss_edited_transcript ss) (ss_edited_segments ss))
              (tr_text t) (tr_segments t) eq_refl eq_refl) as [-> _].
  { rewrite Hs. apply (NoDup_singleton (segment_key s)). }
  rewrite Hs. cbn [fmap list_fmap ss_edited_segments].
  unfold shown_text, initial_text. by rewrite Hw, Hes; cbn; rewrite Hold.
Qed.

(** A file of exactly 20 * 1024 * 1024 bytes is accepted. *)
Example size_limit_inclusive :
  (run service (press (mkUploadedFile (20 * 1024 * 1024) "A")) empty_session).2
  = [transcription_request (mkUploadedFile (20 * 1024 * 1024) "A")].
Proof. vm_compute. reflexivity. Qed.

Example one_request_per_press :
  (run service (press file_b) empty_session).2
  = [mkRequest "B" "whisper-large-v3" "vi" "verbose_json"].
Proof. vm_compute. reflexivity. Qed.

(** ** Scenarios *)

(** The scenario of the specification: "hello" edited to "hi". *)
Example table_after_edit :
  let page := (session service
                 [press file_a; rerun file_a {[ "segment_0.0" := "hi" ]}]
                 empty_session []).2 in
  shown_full_text page = Some "hello world"
  ∧ shown_segments page = [("segment_0.0", "hi"); ("segment_1.0", "world")]
  ∧ exported_rows page
    = Some [mkRow "0.00 - 1.00" "hi"; mkRow "1.00 - 2.00" "world"].
Proof. vm_compute. done. Qed.

(** The user empties the first segment and the full transcript; the page,
    and the next one drawn with no widget holding anything, show them empty. *)
Example emptied_texts_stay_empty :
  let emptied := {[ "segment_0.0" := ""; "transcript_display" := "" ]} in
  let page1 := (session service [press file_a; rerun file_a emptied]
                  empty_session []).2 in
  let page2 := (session service [press file_a; rerun file_a emptied;
                                 rerun file_a {[ "transcript_display" := "" ]}]
                  empty_session []).2 in
  shown_full_text page1 = Some ""
  ∧ shown_segments page1 = [("segment_0.0", ""); ("segment_1.0", "world")]
  ∧ shown_segments page2 = [("segment_0.0", ""); ("segment_1.0", "world")]
  ∧ exported_rows page2
    = Some [mkRow "0.00 - 1.00" ""; mkRow "1.00 - 2.00" "world"].
Proof. vm_compute. done. Qed.

(** ** The claims *)

(** C1.  The key of a segment is made from its start alone: end and text
    do not enter it.  The two segments of [hesitation] differ in end and
    text and have the same key "segment_1.0"; the page for that
    transcription has the editor of the first segment only, and ends with
    Streamlit's exception for the key used twice. *)
Theorem C1_equal_start_same_key :
  let s1 := mkSegment 100 100 "um" in
  let s2 := mkSegment 100 250 "well then" in
  let page := (run service (press file_c) empty_session).1.2 in
  (∀ start end1 text1 end2 text2,
     segment_key (mkSegment start end1 text1)
     = segment_key (mkSegment start end2 text2))
  ∧ tr_segments hesitation = [s1; s2]
  ∧ s1 ≠ s2
  ∧ segment_key s1 = "segment_1.0"
  ∧ segment_key s2 = "segment_1.0"
  ∧ shown_segments page = [("segment_1.0", "um")]
  ∧ raised_on page = Some "segment_1.0".
Proof. split; [done|]. vm_compute. repeat split; done. Qed.

(** C2.  A new transcription replaces the transcript and the segments, and
    leaves the dictionary of edits as it is: no path through the upload
    section writes ['edited_segments'].  After [greeting] and then
    [farewell], the editor of the one segment of [farewell] shows "hello",
    the text of the first segment of [greeting] (or "hi", when that segment
    had been edited to "hi"), and so does the spreadsheet; the
    full-transcript editor shows the text of [farewell]. *)
Theorem C2_edits_outlive_the_transcription :
  let page := (session service [press file_a; rerun file_b ∅; press file_b]
                 empty_session []).2 in
  let page_edited :=
    (session service
       [press file_a; rerun file_a {[ "segment_0.0" := "hi" ]};
        rerun file_b ∅; press file_b]
       empty_session []).2 in
  tr_segments farewell = [mkSegment 0 150 "good bye"]
  ∧ shown_full_text page = Some "good bye"
  ∧ shown_segments page = [("segment_0.0", "hello")]
  ∧ exported_rows page = Some [mkRow "0.00 - 1.50" "hello"]
  ∧ shown_segments page_edited = [("segment_0.0", "hi")]
  ∧ (∀ api inp ss,
       ss_edited_segments (upload_section api inp ss).1.1
       = ss_edited_segments ss).
Proof.
  repeat split; try (vm_compute; done).
  intros api inp ss. apply upload_section_cases.
Qed.

(** What the display section does with the edits: the text in the
    full-transcript editor (and behind the text download) is the text the
    widget holds when it holds one, and the transcript otherwise; the text
    offered for a segment is the entry of ['edited_segments'] under the
    segment's key when there is one, and the segment's own text otherwise;
    the segment editors on a page are those of the first segments of the
    list and show that text or the one typed; and the page is a function of
    the transcript, the segments, the dictionary and the widget values
    alone. *)
Lemma display_merges_edits :
  (∀ w transcript,
     edited_full_transcript w transcript
     = Ok match w !! "transcript_display" with
          | Some t => t
          | None => transcript
          end)
  ∧ (∀ es seg,
       initial_text es seg
       = match es !! segment_key seg with
         | Some t => t
         | None => seg_text seg
         end)
  ∧ (∀ w ss,
       let page := (display_section w ss).2 in
       let shown := λ transcript, default transcript (w !! "transcript_display") in
       shown_full_text page = shown <$> ss_transcript ss
       ∧ exported_text page = shown <$> ss_transcript ss)
  ∧ (∀ w ss,
       let es := default ∅ (ss_edited_segments ss) in
       shown_segments (display_section w ss).2
       `prefix_of`
       (λ s, (segment_key s, default (initial_text es s) (w !! segment_key s)))
       <$> default [] (ss_segments ss))
  ∧ (∀ w ss,
       (display_section w ss).2
       = (display_section w
            (mkSessionState (ss_segments ss) (ss_transcript ss) None
               (Some (default ∅ (ss_edited_segments ss))))).2).
Proof.
  split; [|split; [|split; [|split]]].
  - intros w transcript. unfold edited_full_transcript, text_area.
    case_decide as Hin; [by apply elem_of_nil in Hin|].
    by destruct (w !! "transcript_display").
  - intros es seg. unfold initial_text. by destruct (es !! segment_key seg).
  - intros w ss. rewrite display_section_spec. unfold display_view.
    by destruct (ss_transcript ss).
  - intros w ss. rewrite display_section_spec, shown_segments_display_view.
    cbn zeta. apply fmap_prefix_of.
    destruct (ss_transcript ss); [apply rendered_prefix|apply prefix_nil].
  - intros w ss. rewrite !display_section_spec. unfold display_view.
    cbn [ss_transcript ss_segments ss_edited_segments].
    by destruct (ss_transcript ss).
Qed.

(** C3.  For [hesitation] the second segment, "well then", has no view at
    all: the one editor on the page is that of the first segment, the entry
    under the key of the second segment holds "um", the text of the first,
    and "um" is the text the script would offer for the second segment from
    then on, which is neither an edit of that segment nor its own text. *)
Theorem C3_repeated_start_has_no_view :
  let s2 := mkSegment 100 250 "well then" in
  let first := session service [press file_c] empty_session [] in
  let second := session service [press file_c; rerun file_c ∅]
                  empty_session [] in
  tr_segments hesitation = [mkSegment 100 100 "um"; s2]
  ∧ shown_segments first.2 = [("segment_1.0", "um")]
  ∧ default ∅ (ss_edited_segments first.1) !! segment_key s2 = Some "um"
  ∧ initial_text (default ∅ (ss_edited_segments first.1)) s2 = "um"
  ∧ shown_segments second.2 = [("segment_1.0", "um")]
  ∧ raised_on second.2 = Some "segment_1.0".
Proof. vm_compute. repeat split; done. Qed.

(** C4.  For [hesitation], whose two segments start at 1.0, the loop that
    builds the rows stops at the second segment: the page has no spreadsheet
    download at all, on the execution that receives the transcription and on
    the next one. *)
Theorem C4_no_table_when_starts_coincide :
  let page1 := (session service [press file_c] empty_session []).2 in
  let page2 := (session service [press file_c; rerun file_c ∅]
                  empty_session []).2 in
  length (tr_segments hesitation) = 2%nat
  ∧ exported_rows page1 = None
  ∧ raised_on page1 = Some "segment_1.0"
  ∧ exported_rows page2 = None
  ∧ raised_on page2 = Some "segment_1.0".
Proof. vm_compute. done. Qed.

(** C5.  When the call to the transcription service raises, the upload
    section shows the error and leaves the session state exactly as it was
    (result, segments and edits): the execution ends in the state of an
    execution in which the button was not pressed, and, when the widgets
    hold what they held in the execution before, in the very state that
    execution left. *)
Theorem C5_failed_call_leaves_state api inp ss f e :
  in_uploaded_file inp = Some f →
  (file_size f ≤ size_limit)%N →
  in_button inp = true →
  api (transcription_request f) = Raised e →
  upload_section api inp ss
  = (ss, [AudioPlayer; ErrorBox ("❌ An error occurred: " +:+ e)],
     [transcription_request f])
  ∧ (run api inp ss).1.1
    = (run api (mkRunInput (Some f) false (in_widgets inp)) ss).1.1
  ∧ (∀ ss0,
       let before := (display_section (in_widgets inp) ss0).1 in
       (run api inp before).1.1 = before).
Proof.
  intros Hf Hsize Hb Hapi.
  assert (Hu : ∀ ss', upload_section api inp ss'
               = (ss', [AudioPlayer; ErrorBox ("❌ An error occurred: " +:+ e)],
                  [transcription_request f])).
  { intros ss'. unfold upload_section, process_audio. rewrite Hf, Hb, Hapi.
    by destruct (N.ltb_spec size_limit (file_size f)); [lia|]. }
  split; [done|split].
  - rewrite (run_state_unchanged_upload _ _ _ _ _ (Hu ss)).
    unfold run, upload_section. cbn [in_uploaded_file in_button in_widgets].
    destruct (N.ltb_spec size_limit (file_size f)); [lia|].
    by destruct (display_section (in_widgets inp) ss).
  - intros ss0 before. rewrite (run_state_unchanged_upload _ _ _ _ _ (Hu before)).
    unfold before. by rewrite display_section_again.
Qed.

(** The service fails on file D, in a session that holds a transcription
    and an edit. *)
Lemma C5_failed_call_leaves_state_witness :
  let ss := (session service [press file_a; rerun file_a {[ "segment_0.0" := "hi" ]}]
               empty_session []).1 in
  let inp := press file_d in
  in_uploaded_file inp = Some file_d
  ∧ (file_size file_d ≤ size_limit)%N
  ∧ in_button inp = true
  ∧ service (transcription_request file_d) = Raised "Connection error."
  ∧ upload_section service inp ss
    = (ss, [AudioPlayer; ErrorBox "❌ An error occurred: Connection error."],
       [transcription_request file_d])
  ∧ (run service inp ss).1.1
    = (run service (mkRunInput (Some file_d) false (in_widgets inp)) ss).1.1
  ∧ (∀ ss0,
       let before := (display_section (in_widgets inp) ss0).1 in
       (run service inp before).1.1 = before).
Proof.
  intros ss inp.
  assert (H1 : in_uploaded_file inp = Some file_d) by reflexivity.
  assert (H2 : (file_size file_d ≤ size_limit)%N) by (vm_compute; discriminate).
  assert (H3 : in_button inp = true) by reflexivity.
  assert (H4 : service (transcription_request file_d) = Raised "Connection error.")
    by reflexivity.
  exact (conj H1 (conj H2 (conj H3 (conj H4
           (C5_failed_call_leaves_state service inp ss file_d
              "Connection error." H1 H2 H3 H4))))).
Defined.

(** C6.  A file of more than 20 * 1024 * 1024 bytes is rejected with an
    error message: the upload section sends no request to the service and
    leaves the session state as it was, whether or not the button is
    reported as pressed; the execution ends in the state the display section
    alone leads to, which is the state of the execution before when the
    widgets hold what they held then. *)
Theorem C6_oversized_upload_rejected api inp ss f :
  in_uploaded_file inp = Some f →
  (20 * 1024 * 1024 < file_size f)%N →
  upload_section api inp ss
  = (ss,
     [AudioPlayer;
      ErrorBox "❌ File size exceeds the 20MB limit. Please upload a smaller file."],
     [])
  ∧ (run api inp ss).2 = []
  ∧ (run api inp ss).1.1 = (display_section (in_widgets inp) ss).1
  ∧ (∀ ss0,
       let before := (display_section (in_widgets inp) ss0).1 in
       (run api inp before).1.1 = before).
Proof.
  intros Hf Hsize.
  assert (Hu : ∀ ss', upload_section api inp ss'
               = (ss',
                  [AudioPlayer;
                   ErrorBox "❌ File size exceeds the 20MB limit. Please upload a smaller file."],
                  [])).
  { intros ss'. unfold upload_section. rewrite Hf.
    by destruct (N.ltb_spec size_limit (file_size f));
      [|unfold size_limit in *; lia]. }
  split; [done|split; [|split]].
  - unfold run. rewrite Hu. by destruct (display_section (in_widgets inp) ss).
  - by rewrite (run_state_unchanged_upload _ _ _ _ _ (Hu ss)).
  - intros ss0 before. rewrite (run_state_unchanged_upload _ _ _ _ _ (Hu before)).
    unfold before. by rewrite display_section_again.
Qed.

(** A file of one byte more than the limit, with the button reported as
    pressed, in a session that holds a transcription. *)
Lemma C6_oversized_upload_rejected_witness :
  let ss := (session service [press file_a] empty_session []).1 in
  let inp := press file_huge in
  in_uploaded_file inp = Some file_huge
  ∧ (20 * 1024 * 1024 < file_size file_huge)%N
  ∧ upload_section service inp ss
    = (ss,
       [AudioPlayer;
        ErrorBox "❌ File size exceeds the 20MB limit. Please upload a smaller file."],
       [])
  ∧ (run service inp ss).2 = []
  ∧ (run service inp ss).1.1 = (display_section (in_widgets inp) ss).1
  ∧ (∀ ss0,
       let before := (display_section (in_widgets inp) ss0).1 in
       (run service inp before).1.1 = before).
Proof.
  intros ss inp.
  assert (H1 : in_uploaded_file inp = Some file_huge) by reflexivity.
  assert (H2 : (20 * 1024 * 1024 < file_size file_huge)%N) by (vm_compute; reflexivity).
  exact (conj H1 (conj H2
           (C6_oversized_upload_rejected service inp ss file_huge H1 H2))).
Defined.

(** C7.  For [hesitation] the page has one segment editor where the
    transcription has two segments, before and after an edit. *)
Theorem C7_fewer_editors_when_starts_coincide :
  let page1 := (session service [press file_c] empty_session []).2 in
  let page2 := (session service
                  [press file_c; rerun file_c {[ "segment_1.0" := "er" ]}]
                  empty_session []).2 in
  length (tr_segments hesitation) = 2%nat
  ∧ length (shown_segments page1) = 1%nat
  ∧ shown_segments page2 = [("segment_1.0", "er")].
Proof. vm_compute. done. Qed.

(** C8.  Storing a text under a key twice leaves the dictionary that
    storing it once leaves; a second text stored under the key replaces the
    first: the key then maps to the second text alone, and the dictionary
    has not grown.  Likewise for a whole execution: the display section
    executed twice with the widgets holding the same texts leaves the state,
    and draws the page, of the first time. *)
Theorem C8_store_idempotent_last_write_wins
    (es : gmap string string) (k t t' : string) :
  store_edited_text (store_edited_text es k t) k t = store_edited_text es k t
  ∧ store_edited_text (store_edited_text es k t) k t' = store_edited_text es k t'
  ∧ store_edited_text (store_edited_text es k t) k t' !! k = Some t'
  ∧ size (store_edited_text (store_edited_text es k t) k t')
    = size (store_edited_text es k t)
  ∧ (∀ w ss, display_section w (display_section w ss).1 = display_section w ss).
Proof.
  unfold store_edited_text. rewrite !insert_insert_eq. repeat split.
  - apply lookup_insert_eq.
  - rewrite !map_size_insert. by destruct (es !! k).
  - apply display_section_again.
Qed.


(** C10.  Every request an execution sends to the transcription service
    names the model "whisper-large-v3" and the language "vi", whatever the
    file, the widget values and the session state; nothing the user supplies
    reaches these two fields. *)
Theorem C10_fixed_language_and_model api inp ss :
  Forall (λ request,
            req_model request = "whisper-large-v3"
            ∧ req_language request = "vi"
            ∧ req_response_format request = "verbose_json")
         (run api inp ss).2.
Proof.
  rewrite run_calls.
  destruct (in_uploaded_file inp) as [f|]; [|constructor].
  destruct (size_limit <? file_size f); [constructor|].
  destruct (in_button inp); repeat constructor.
Qed.

(** ** Further properties of the script *)

(** *** Keys *)

(** X1.  Two segments have the same widget key exactly when they start at the
    same time, a list of segments has pairwise distinct keys exactly when it
    has pairwise distinct starts, and no segment has the key of the
    full-transcript editor. *)
Theorem keys_as_distinct_as_starts :
  (∀ s1 s2, segment_key s1 = segment_key s2 ↔ seg_start s1 = seg_start s2)
  ∧ (∀ segments : list Segment,
       NoDup (segment_key <$> segments) ↔ NoDup (seg_start <$> segments))
  ∧ (∀ s, segment_key s ≠ "transcript_display").
Proof.
  split; [apply segment_key_eq_iff|split].
  - apply segment_keys_NoDup.
  - apply segment_key_not_transcript_display.
Qed.

(** *** The editor's height *)

(** X2.  The height of a segment editor is at least 68, and 68 exactly for the
    texts of fewer than 120 characters; above that it is 30 for every 40
    characters, so within 30 below three quarters of the length; and a
    longer text never gets a lower editor. *)
Theorem area_height_bounds (len more : N) :
  68 ≤ area_height len
  ∧ (area_height len = 68 ↔ len < 120)
  ∧ (area_height len = 68 ∨ area_height len = 30 * (len / 40))
  ∧ 4 * area_height len ≤ N.max 272 (3 * len)
  ∧ 3 * len < 4 * area_height len + 120
  ∧ area_height len ≤ area_height (len + more).
Proof.
  unfold area_height.
  pose proof (N.div_mod len 40) as Hd. pose proof (N.mod_lt len 40) as Hm.
  pose proof (N.div_mod (len + more) 40) as Hd'.
  pose proof (N.mod_lt (len + more) 40) as Hm'.
  set (q := len / 40) in *. set (q' := (len + more) / 40) in *.
  set (r := len mod 40) in *. set (r' := (len + more) mod 40) in *.
  destruct (N.max_spec 68 (q * 30)) as [[? ->]|[? ->]];
    destruct (N.max_spec 68 (q' * 30)) as [[? ->]|[? ->]];
    destruct (N.max_spec 272 (3 * len)) as [[? ->]|[? ->]];
    repeat split; intros; lia.
Qed.

(** *** The temporary file *)


(** X4.  With a fresh path for the temporary file: when the service returns, the
    disk is left as it was found; when the service raises, the temporary
    file stays behind, holding the upload, and the rest of the disk is as it
    was. *)
Theorem process_audio_files_disk api audio_file temp_path fs ss :
  fs !! temp_path = None →
  let fs' := (process_audio_files api audio_file temp_path fs ss).1 in
  match api temp_path (transcription_request audio_file) with
  | Returned _ => fs' = fs
  | Raised _ =>
      fs' !! temp_path = Some (file_value audio_file)
      ∧ delete temp_path fs' = fs
  end.
Proof.
  intros Hfresh. unfold process_audio_files, transcription_request.
  rewrite lookup_insert_eq.
  destruct (api temp_path _); cbn [fst].
  - split; [apply lookup_insert_eq|].
    rewrite delete_insert_eq. by apply delete_id.
  - rewrite delete_insert_eq. by apply delete_id.
Qed.

(** The service is down: the upload stays in /tmp/tmp1.mp3, next to the
    file that was there. *)
Lemma process_audio_files_disk_witness :
  let fs : gmap string string := {[ "/tmp/notes.txt" := "n" ]} in
  let api := λ _ : string, service_down in
  fs !! "/tmp/tmp1.mp3" = None
  ∧ let fs' := (process_audio_files api file_a "/tmp/tmp1.mp3" fs
                  empty_session).1 in
    match api "/tmp/tmp1.mp3" (transcription_request file_a) with
    | Returned _ => fs' = fs
    | Raised _ =>
        fs' !! "/tmp/tmp1.mp3" = Some (file_value file_a)
        ∧ delete "/tmp/tmp1.mp3" fs' = fs
    end.
Proof.
  intros fs api.
  assert (H1 : fs !! "/tmp/tmp1.mp3" = None) by (vm_compute; reflexivity).
  exact (conj H1
           (process_audio_files_disk api file_a "/tmp/tmp1.mp3" fs
              empty_session H1)).
Defined.

(** *** The page of the display section *)

Lemma first_clash_None_rendered used segments :
  first_clash used segments = None → rendered used segments = segments.
Proof. intros [Hnd Hf]%first_clash_None. by apply rendered_NoDup. Qed.

Lemma display_section_state w ss transcript :
  ss_transcript ss = Some transcript →
  let es := default ∅ (ss_edited_segments ss) in
  (display_section w ss).1
  = mkSessionState (ss_segments ss) (Some transcript)
      (Some (default transcript (w !! "transcript_display")))
      (Some (store_all w es (rendered [] (default [] (ss_segments ss))) es)).
Proof.
  intros Ht. rewrite display_section_spec. unfold display_view. by rewrite Ht.
Qed.

Lemma exported_rows_display w ss :
  let es := default ∅ (ss_edited_segments ss) in
  let segments := default [] (ss_segments ss) in
  exported_rows (display_section w ss).2
  = match ss_transcript ss, first_clash [] segments, segments with
    | Some _, None, _ :: _ => Some (segment_row w es <$> segments)
    | _, _, _ => None
    end.
Proof.
  rewrite display_section_spec. unfold display_view.
  destruct (ss_transcript ss); [|done]. cbn [snd app exported_rows].
  rewrite exported_rows_elements.
  destruct (first_clash [] _) eqn:Hc; [by destruct (default [] _)|].
  rewrite (first_clash_None_rendered _ _ Hc). by destruct (default [] _).
Qed.

Lemma raised_on_display w ss :
  raised_on (display_section w ss).2
  = match ss_transcript ss with
    | Some _ => segment_key <$> first_clash [] (default [] (ss_segments ss))
    | None => None
    end.
Proof.
  rewrite display_section_spec. unfold display_view.
  destruct (ss_transcript ss); [|done]. cbn [snd app raised_on].
  rewrite raised_on_elements.
  destruct (first_clash [] _); [done|]. by destruct (rendered [] _).
Qed.

Lemma shown_text_typed w es s k t :
  shown_text (<[k := t]> w) es s
  = if decide (segment_key s = k) then t else shown_text w es s.
Proof.
  unfold shown_text. case_decide as Hk.
  - by rewrite Hk, lookup_insert_eq.
  - by rewrite lookup_insert_ne.
Qed.

Lemma store_all_widgets w w' es (l : list Segment) acc :
  (∀ x, x ∈ l → shown_text w' es x = shown_text w es x) →
  store_all w' es l acc = store_all w es l acc.
Proof.
  unfold store_all. revert acc.
  induction l as [|a l IH]; intros acc H; csimpl; [done|].
  rewrite H by (by left). apply IH.
  intros x Hx. apply H. by right.
Qed.

(** X5.  For a transcription whose segments start at pairwise distinct times,
    every segment has its editor, in the order of the list, showing the text
    the widget holds, else the entry of the dictionary, else the segment's
    own text; the script raises nothing; the spreadsheet has one row per
    segment, in that order, with the two times printed to two decimals and
    the text of the editor; and afterwards the dictionary holds the text of
    each editor under the segment's key. *)
Theorem every_segment_shown_and_exported w ss transcript segments :
  ss_transcript ss = Some transcript →
  ss_segments ss = Some segments →
  NoDup (seg_start <$> segments) →
  let es := default ∅ (ss_edited_segments ss) in
  let shown := λ s,
    default (default (seg_text s) (es !! segment_key s)) (w !! segment_key s) in
  let page := (display_section w ss).2 in
  let es' := default ∅ (ss_edited_segments (display_section w ss).1) in
  shown_segments page = (λ s, (segment_key s, shown s)) <$> segments
  ∧ raised_on page = None
  ∧ exported_rows page
    = match segments with
      | [] => None
      | _ :: _ =>
          Some ((λ s, mkRow (format_2f (seg_start s) +:+ " - " +:+
                             format_2f (seg_end s)) (shown s)) <$> segments)
      end
  ∧ Forall (λ s, es' !! segment_key s = Some (shown s)) segments.
Proof.
  intros Ht Hs Hnd es shown page es'.
  destruct (display_distinct_starts w ss transcript segments Ht Hs Hnd)
    as (H1 & H2 & H3).
  split; [done|split; [done|split; [done|]]].
  apply Forall_forall. intros s Hin. unfold es'.
  rewrite (display_section_state w ss transcript Ht). cbn [ss_edited_segments].
  rewrite Hs. cbn [from_option id].
  apply segment_keys_NoDup in Hnd.
  destruct (rendered_NoDup [] segments Hnd) as [-> _];
    [by intros ? _ ?%elem_of_nil|].
  by apply store_all_lookup.
Qed.

Lemma greeting_starts_distinct : NoDup (seg_start <$> tr_segments greeting).
Proof. apply (bool_decide_unpack _). vm_compute. exact I. Qed.

(** [greeting] on the page, with "hi" typed into the first editor. *)
Lemma every_segment_shown_and_exported_witness :
  let ss := (session service [press file_a] empty_session []).1 in
  let w : gmap string string := {[ "segment_0.0" := "hi" ]} in
  let page := (display_section w ss).2 in
  let es' := default ∅ (ss_edited_segments (display_section w ss).1) in
  ss_transcript ss = Some "hello world"
  ∧ ss_segments ss = Some (tr_segments greeting)
  ∧ NoDup (seg_start <$> tr_segments greeting)
  ∧ shown_segments page = [("segment_0.0", "hi"); ("segment_1.0", "world")]
  ∧ raised_on page = None
  ∧ exported_rows page
    = Some [mkRow "0.00 - 1.00" "hi"; mkRow "1.00 - 2.00" "world"]
  ∧ Forall (λ s, es' !! segment_key s
                 = Some (default (default (seg_text s)
                                    (default ∅ (ss_edited_segments ss)
                                     !! segment_key s))
                           (w !! segment_key s)))
      (tr_segments greeting).
Proof.
  intros ss w page es'.
  assert (H1 : ss_transcript ss = Some "hello world") by reflexivity.
  assert (H2 : ss_segments ss = Some (tr_segments greeting)) by reflexivity.
  exact (conj H1 (conj H2 (conj greeting_starts_distinct
           (every_segment_shown_and_exported w ss "hello world"
              (tr_segments greeting) H1 H2 greeting_starts_distinct)))).
Defined.

(** X6.  Whenever a page offers the spreadsheet, its rows are, in order, the
    texts of the segment editors on that page, next to the time ranges of
    the segments: what is exported is what is shown. *)
Theorem table_is_what_is_shown w ss :
  let page := (display_section w ss).2 in
  match exported_rows page with
  | Some rows =>
      row_Content <$> rows = snd <$> shown_segments page
      ∧ row_Time <$> rows
        = (λ s, format_2f (seg_start s) +:+ " - " +:+ format_2f (seg_end s))
          <$> default [] (ss_segments ss)
  | None => True
  end.
Proof.
  cbn zeta. rewrite exported_rows_display, display_section_spec,
    shown_segments_display_view.
  destruct (ss_transcript ss) as [transcript|]; [|done].
  destruct (first_clash [] _) as [clash|] eqn:Hc; [done|].
  rewrite (first_clash_None_rendered _ _ Hc).
  destruct (default [] (ss_segments ss)) as [|seg rest] eqn:Hs; [done|].
  rewrite <- !list_fmap_compose. split; by apply fmap_agree.
Qed.

(** X7.  The script gets to its end exactly when there is no transcript or the
    segments start at pairwise distinct times.  The spreadsheet is offered
    exactly when there is a transcript with at least one segment and the
    starts are pairwise distinct; the text download is offered exactly when
    there is a transcript, also when the script then raises. *)
Theorem what_a_page_offers w ss :
  let page := (display_section w ss).2 in
  let segments := default [] (ss_segments ss) in
  (raised_on page = None
   ↔ ss_transcript ss = None ∨ NoDup (seg_start <$> segments))
  ∧ (is_Some (exported_rows page)
     ↔ is_Some (ss_transcript ss) ∧ segments ≠ []
       ∧ NoDup (seg_start <$> segments))
  ∧ (is_Some (exported_text page) ↔ is_Some (ss_transcript ss)).
Proof.
  cbn zeta.
  assert (Hc : first_clash [] (default [] (ss_segments ss)) = None
               ↔ NoDup (seg_start <$> default [] (ss_segments ss))).
  { rewrite <- segment_keys_NoDup. split.
    - by intros [? _]%first_clash_None.
    - intros Hnd. by apply rendered_NoDup; [|intros ? _ ?%elem_of_nil]. }
  rewrite raised_on_display, exported_rows_display.
  split; [|split].
  - destruct (ss_transcript ss) as [t|]; [|by split; [left|]].
    rewrite <- Hc. destruct (first_clash [] _); split; try done.
    + by intros [|].
    + by right.
  - rewrite <- Hc. destruct (ss_transcript ss) as [t|].
    + destruct (first_clash [] _); [split; [by intros []|by intros (_ & _ & ?)]|].
      destruct (default [] (ss_segments ss)).
      * split; [by intros []|by intros (_ & ? & _)].
      * split; [by intros _|by eexists].
    + split; [by intros []|by intros ([] & _)].
  - rewrite display_section_spec. unfold display_view.
    destruct (ss_transcript ss); [|done]. cbn. split; by eexists.
Qed.

(** *** Typing into the editors *)

(** X8.  A text typed into the editor with the key of a segment is the text of
    that editor; every other editor on the page shows what it would have
    shown, and so does the full-transcript editor.  The editors of a page
    have pairwise distinct keys, so one editor at most changes. *)
Theorem typing_changes_one_editor w ss s t :
  let page := (display_section w ss).2 in
  let page' := (display_section (<[segment_key s := t]> w) ss).2 in
  shown_segments page'
  = (λ '(key, text), (key, if decide (key = segment_key s) then t else text))
    <$> shown_segments page
  ∧ NoDup (fst <$> shown_segments page)
  ∧ shown_full_text page' = shown_full_text page
  ∧ exported_text page' = exported_text page.
Proof.
  cbn zeta. rewrite !display_section_spec, !shown_segments_display_view.
  split; [|split].
  - rewrite <- list_fmap_compose. apply fmap_agree. intros x _. cbn.
    by rewrite shown_text_typed.
  - rewrite <- list_fmap_compose.
    destruct (ss_transcript ss); [apply rendered_keys_NoDup|constructor].
  - unfold display_view. destruct (ss_transcript ss); [|done]. cbn.
    by rewrite lookup_insert_ne by apply segment_key_not_transcript_display.
Qed.

(** What an editor shows, the display section shows again when it is
    executed on the state it left, unless the widget then holds another
    text. *)
Lemma shown_text_is_kept w1 w2 ss key text :
  (key, text) ∈ shown_segments (display_section w1 ss).2 →
  w2 !! key = None →
  (key, text) ∈ shown_segments (display_section w2 (display_section w1 ss).1).2.
Proof.
  rewrite !display_section_spec, !shown_segments_display_view.
  destruct (ss_transcript ss) as [transcript|] eqn:Ht;
    [|by intros ?%elem_of_nil].
  intros (s & [= -> ->] & Hs)%list_elem_of_fmap_1 Hw.
  rewrite <- (display_section_spec w1 ss).
  rewrite (display_section_state w1 ss transcript Ht).
  cbn [ss_transcript ss_segments ss_edited_segments from_option id].
  apply list_elem_of_fmap. exists s. split; [|done]. f_equal.
  symmetry. unfold shown_text at 1. unfold initial_text.
  rewrite Hw. cbn [from_option id].
  by rewrite (store_all_lookup w1 _ _ _ s (rendered_keys_NoDup _ _) Hs).
Qed.


(** X10.  A text typed into the full-transcript editor changes no segment editor,
    no row of the spreadsheet and no entry of the dictionary; it is the text
    shown and offered for download. *)
Theorem full_text_edit_leaves_segments w ss t :
  let before := display_section w ss in
  let after := display_section (<["transcript_display" := t]> w) ss in
  shown_segments after.2 = shown_segments before.2
  ∧ exported_rows after.2 = exported_rows before.2
  ∧ raised_on after.2 = raised_on before.2
  ∧ ss_edited_segments after.1 = ss_edited_segments before.1
  ∧ shown_full_text after.2 = (λ _, t) <$> ss_transcript ss
  ∧ exported_text after.2 = (λ _, t) <$> ss_transcript ss.
Proof.
  cbn zeta.
  assert (Hw : ∀ x, shown_text (<["transcript_display" := t]> w)
                      (default ∅ (ss_edited_segments ss)) x
                    = shown_text w (default ∅ (ss_edited_segments ss)) x).
  { intros x. rewrite shown_text_typed. case_decide as Hk; [|done].
    by apply segment_key_not_transcript_display in Hk. }
  rewrite !exported_rows_display, !raised_on_display.
  rewrite !display_section_spec, !shown_segments_display_view.
  split; [|split; [|split; [done|split; [|split]]]].
  - apply fmap_agree. intros x _. by rewrite Hw.
  - destruct (ss_transcript ss); [|done].
    destruct (first_clash [] _); [done|].
    destruct (default [] (ss_segments ss)); [done|].
    f_equal. apply fmap_agree. intros x _. unfold segment_row. by rewrite Hw.
  - unfold display_view. destruct (ss_transcript ss); [|done].
    cbn [fst ss_edited_segments]. f_equal.
    apply store_all_widgets. by intros x _.
  - unfold display_view. destruct (ss_transcript ss); [|done]. cbn.
    by rewrite lookup_insert_eq.
  - unfold display_view. destruct (ss_transcript ss); [|done]. cbn.
    by rewrite lookup_insert_eq.
Qed.

(** *** The session state from one execution to the next *)

Lemma run_state api inp ss :
  (run api inp ss).1.1
  = (display_section (in_widgets inp) (upload_section api inp ss).1.1).1.
Proof.
  unfold run. destruct (upload_section api inp ss) as [[ss1 page1] calls].
  cbn [fst snd]. by destruct (display_section (in_widgets inp) ss1).
Qed.

Lemma run_page api inp ss :
  (run api inp ss).1.2
  = (upload_section api inp ss).1.2
    ++ (display_section (in_widgets inp) (upload_section api inp ss).1.1).2.
Proof.
  unfold run. destruct (upload_section api inp ss) as [[ss1 page1] calls].
  cbn [fst snd]. by destruct (display_section (in_widgets inp) ss1).
Qed.

(** The elements of the upload section are the player and a message. *)
Lemma upload_section_page api inp ss :
  Forall (λ e, e = AudioPlayer ∨ (∃ m, e = ErrorBox m) ∨ ∃ m, e = SuccessBox m)
    (upload_section api inp ss).1.2.
Proof.
  unfold upload_section, process_audio.
  destruct (in_uploaded_file inp) as [f|]; [|constructor].
  destruct (size_limit <? file_size f);
    [repeat (apply Forall_cons_2; [naive_solver|]); constructor|].
  destruct (in_button inp);
    [|repeat (apply Forall_cons_2; [naive_solver|]); constructor].
  destruct (api (transcription_request f));
    repeat (apply Forall_cons_2; [naive_solver|]); constructor.
Qed.

Lemma messages_app messages page :
  Forall (λ e, e = AudioPlayer ∨ (∃ m, e = ErrorBox m) ∨ ∃ m, e = SuccessBox m)
    messages →
  shown_full_text (messages ++ page) = shown_full_text page
  ∧ shown_segments (messages ++ page) = shown_segments page
  ∧ exported_text (messages ++ page) = exported_text page
  ∧ exported_rows (messages ++ page) = exported_rows page
  ∧ raised_on (messages ++ page) = raised_on page.
Proof.
  induction 1 as [|e l He _ IH]; [done|].
  by destruct He as [->|[[m ->]|[m ->]]].
Qed.

Lemma display_section_keeps w ss :
  ss_segments (display_section w ss).1 = ss_segments ss
  ∧ ss_transcript (display_section w ss).1 = ss_transcript ss.
Proof.
  rewrite display_section_spec. unfold display_view.
  by destruct (ss_transcript ss) eqn:Ht.
Qed.

Lemma dom_store_all w es (l : list Segment) (acc : gmap string string) :
  dom acc ⊆ dom (store_all w es l acc).
Proof.
  unfold store_all. revert acc. induction l as [|a l IH]; intros acc; csimpl.
  - done.
  - etrans; [|apply IH]. unfold store_edited_text. rewrite dom_insert.
    set_solver.
Qed.

Lemma run_shape api inp ss :
  ss = empty_session ∨ populated ss →
  (run api inp ss).1.1 = empty_session ∨ populated (run api inp ss).1.1.
Proof.
  intros Hss. rewrite run_state.
  destruct (upload_section_cases api inp ss) as [Hu _]. cbn zeta in Hu.
  set (ss1 := (upload_section api inp ss).1.1) in *.
  assert (H1 : ss1 = empty_session
               ∨ (is_Some (ss_segments ss1) ∧ is_Some (ss_transcript ss1))).
  { destruct Hu as [->|(f & t & _ & _ & ->)].
    - destruct Hss as [->|(? & ? & _)]; [by left|by right].
    - right. by split; eexists. }
  destruct H1 as [->|[Hs [transcript Ht]]]; [by left|right].
  rewrite (display_section_state _ _ _ Ht). unfold populated.
  cbn [ss_segments ss_transcript ss_edited_transcript ss_edited_segments].
  repeat split; by eauto.
Qed.

(** X11.  In a session that starts with nothing, after any executions and with
    any service, ['segments'], ['transcript'], ['edited_transcript'] and
    ['edited_segments'] are all absent or all present: the display section
    never meets a transcript without segments. *)
Theorem session_state_all_or_nothing api inps :
  let ss := (session api inps empty_session []).1 in
  ss = empty_session ∨ populated ss.
Proof.
  cbn zeta.
  assert (H : ∀ ss page, ss = empty_session ∨ populated ss →
              (session api inps ss page).1 = empty_session
              ∨ populated (session api inps ss page).1).
  { induction inps as [|inp rest IH]; intros ss page Hss; [done|].
    cbn [session]. pose proof (run_shape api inp ss Hss) as Hr.
    destruct (run api inp ss) as [[ss2 page2] calls]. by apply IH. }
  apply H. by left.
Qed.

(** X12.  As long as the service has not returned a transcription, the session
    state stays empty and no page has anything of a transcript: no editor,
    no download, no exception, whatever is uploaded, pressed or typed. *)
Theorem nothing_before_the_first_transcription api inps :
  (∀ request, ∃ e, api request = Raised e) →
  (session api inps empty_session []).1 = empty_session
  ∧ transcript_free (session api inps empty_session []).2.
Proof.
  intros Hdown.
  assert (Hrun : ∀ inp, (run api inp empty_session).1.1 = empty_session
                        ∧ transcript_free (run api inp empty_session).1.2).
  { intros inp.
    assert (Hu : (upload_section api inp empty_session).1.1 = empty_session).
    { destruct (upload_section_cases api inp empty_session) as [[H|H] _];
        [done|].
      destruct H as (f & t & _ & Hapi & _).
      destruct (Hdown (transcription_request f)) as [e He]. congruence. }
    rewrite run_state, run_page, Hu.
    pose proof (upload_section_page api inp empty_session) as Hm.
    split; [done|]. unfold transcript_free.
    destruct (messages_app _ (display_section (in_widgets inp) empty_session).2 Hm)
      as (-> & -> & -> & -> & ->). by repeat split. }
  assert (H : ∀ page, transcript_free page →
              (session api inps empty_session page).1 = empty_session
              ∧ transcript_free (session api inps empty_session page).2).
  { induction inps as [|inp rest IH]; intros page Hpage; [done|].
    cbn [session]. destruct (Hrun inp) as [Hs Hp].
    destruct (run api inp empty_session) as [[ss2 page2] calls].
    cbn [fst snd] in Hs, Hp. subst ss2. by apply IH. }
  apply H. by repeat split.
Qed.

(** The service is down while a file is uploaded, the button pressed and a
    text typed. *)
Lemma nothing_before_the_first_transcription_witness :
  let inps := [press file_a; rerun file_b {[ "segment_0.0" := "hi" ]}] in
  (∀ request, ∃ e, service_down request = Raised e)
  ∧ (session service_down inps empty_session []).1 = empty_session
  ∧ transcript_free (session service_down inps empty_session []).2.
Proof.
  intros inps.
  assert (H1 : ∀ request, ∃ e, service_down request = Raised e)
    by (intros request; by eexists).
  exact (conj H1 (nothing_before_the_first_transcription service_down inps H1)).
Defined.

(** X13.  No execution removes an entry from the dictionary of edits: the keys it
    has before, it has afterwards. *)
Theorem dictionary_never_shrinks api inp ss :
  dom (default ∅ (ss_edited_segments ss))
  ⊆ dom (default ∅ (ss_edited_segments (run api inp ss).1.1)).
Proof.
  rewrite run_state.
  destruct (upload_section_cases api inp ss) as [_ He]. cbn zeta in He.
  rewrite <- He. set (ss1 := (upload_section api inp ss).1.1).
  rewrite display_section_spec. unfold display_view.
  destruct (ss_transcript ss1); [|done].
  cbn [fst ss_edited_segments from_option id]. apply dom_store_all.
Qed.

(** X14.  An execution leaves alone every entry of the dictionary whose key is
    not the key of a segment of the transcription then on the page; the
    entries of an earlier transcription stay as they were. *)
Theorem other_entries_untouched api inp ss k :
  k ∉ segment_key <$> default [] (ss_segments (run api inp ss).1.1) →
  default ∅ (ss_edited_segments (run api inp ss).1.1) !! k
  = default ∅ (ss_edited_segments ss) !! k.
Proof.
  rewrite run_state.
  destruct (upload_section_cases api inp ss) as [_ He]. cbn zeta in He.
  rewrite <- He. set (ss1 := (upload_section api inp ss).1.1).
  destruct (display_section_keeps (in_widgets inp) ss1) as [-> _].
  rewrite display_section_spec. unfold display_view.
  destruct (ss_transcript ss1); [|done].
  cbn [fst ss_edited_segments from_option id]. intros Hk.
  apply store_all_lookup_other. intros Hin. apply Hk.
  destruct (rendered_prefix [] (default [] (ss_segments ss1))) as [rest Hrest].
  rewrite Hrest at 1. rewrite fmap_app. apply elem_of_app. by left.
Qed.

(** After [greeting], the transcription [hesitation] arrives: the entry
    under "segment_0.0" stays. *)
Lemma other_entries_untouched_witness :
  let ss := (session service [press file_a] empty_session []).1 in
  ("segment_0.0"
   ∉ segment_key <$> default [] (ss_segments (run service (press file_c) ss).1.1))
  ∧ default ∅ (ss_edited_segments (run service (press file_c) ss).1.1)
    !! "segment_0.0"
    = default ∅ (ss_edited_segments ss) !! "segment_0.0".
Proof.
  intros ss.
  assert (H1 : "segment_0.0"
               ∉ segment_key
                 <$> default [] (ss_segments (run service (press file_c) ss).1.1)).
  { apply (bool_decide_unpack _). vm_compute. exact I. }
  exact (conj H1 (other_entries_untouched service (press file_c) ss
                    "segment_0.0" H1)).
Defined.

(** *** Requests and transcriptions *)

Lemma full_text_of_display w ss :
  shown_full_text (display_section w ss).2
  = (λ transcript, default transcript (w !! "transcript_display"))
    <$> ss_transcript ss
  ∧ exported_text (display_section w ss).2
    = (λ transcript, default transcript (w !! "transcript_display"))
      <$> ss_transcript ss.
Proof.
  rewrite display_section_spec. unfold display_view.
  by destruct (ss_transcript ss).
Qed.

Lemma upload_section_returned api inp ss f t :
  in_uploaded_file inp = Some f →
  (file_size f ≤ size_limit)%N →
  in_button inp = true →
  api (transcription_request f) = Returned t →
  upload_section api inp ss
  = (set_transcript (set_segments ss (tr_segments t)) (tr_text t),
     [AudioPlayer; SuccessBox "✅ Processing complete! Transcript is ready."],
     [transcription_request f]).
Proof.
  intros Hf Hsize Hb Hapi. unfold upload_section, process_audio.
  rewrite Hf, Hb, Hapi.
  by destruct (N.ltb_spec size_limit (file_size f)); [lia|].
Qed.

(** X15.  An execution sends one request at most.  It sends one exactly when a
    file within the size limit is uploaded and the button is pressed, and
    the request then carries the bytes of that file. *)
Theorem requests_of_an_execution api inp ss :
  let calls := (run api inp ss).2 in
  (length calls ≤ 1)%nat
  ∧ (calls ≠ []
     ↔ ∃ f, in_uploaded_file inp = Some f
            ∧ (file_size f ≤ 20 * 1024 * 1024)%N
            ∧ in_button inp = true)
  ∧ Forall (λ request,
              Some (req_file request) = file_value <$> in_uploaded_file inp)
      calls.
Proof.
  cbn zeta. rewrite run_calls.
  destruct (in_uploaded_file inp) as [f|].
  - destruct (N.ltb_spec size_limit (file_size f)) as [Hs|Hs];
      unfold size_limit in Hs.
    + split; [cbn; lia|split; [|constructor]].
      split; [done|]. intros (f' & [= <-] & Hle & _). lia.
    + destruct (in_button inp).
      * split; [cbn; lia|split; [|by repeat constructor]].
        split; [intros _; by exists f|done].
      * split; [cbn; lia|split; [|constructor]].
        split; [done|]. by intros (f' & _ & _ & ?).
  - split; [cbn; lia|split; [|constructor]].
    split; [done|]. by intros (f' & ? & _).
Qed.



(** X17.  The first transcription of a session, with segments that start at
    pairwise distinct times and no text held by a widget: the page shows the
    text of the transcription and, segment by segment, the texts as the
    service returned them, and offers both for download; the state holds the
    transcription. *)
Theorem first_transcription_shows_originals api inp f t :
  in_uploaded_file inp = Some f →
  (file_size f ≤ 20 * 1024 * 1024)%N →
  in_button inp = true →
  in_widgets inp = ∅ →
  api (transcription_request f) = Returned t →
  NoDup (seg_start <$> tr_segments t) →
  let page := (run api inp empty_session).1.2 in
  let ss' := (run api inp empty_session).1.1 in
  shown_full_text page = Some (tr_text t)
  ∧ exported_text page = Some (tr_text t)
  ∧ shown_segments page = (λ s, (segment_key s, seg_text s)) <$> tr_segments t
  ∧ exported_rows page
    = match tr_segments t with
      | [] => None
      | _ :: _ =>
          Some ((λ s, mkRow (format_2f (seg_start s) +:+ " - " +:+
                             format_2f (seg_end s)) (seg_text s))
                <$> tr_segments t)
      end
  ∧ ss_transcript ss' = Some (tr_text t)
  ∧ ss_segments ss' = Some (tr_segments t)
  ∧ ss_edited_transcript ss' = Some (tr_text t).
Proof.
  intros Hf Hsize Hb Hw Hapi Hnd. cbn zeta.
  rewrite run_page, run_state,
    (upload_section_returned api inp empty_session f t Hf Hsize Hb Hapi), Hw.
  cbn [fst snd app shown_full_text exported_text shown_segments exported_rows].
  set (ss1 := set_transcript (set_segments empty_session (tr_segments t))
                (tr_text t)).
  destruct (display_distinct_starts ∅ ss1 (tr_text t) (tr_segments t)
              eq_refl eq_refl Hnd) as (H1 & _ & H3).
  destruct (full_text_of_display ∅ ss1) as [H4 H5].
  rewrite H1, H3, H4, H5, (display_section_state ∅ ss1 (tr_text t) eq_refl).
  cbn [ss1 set_transcript set_segments empty_session
       ss_transcript ss_segments ss_edited_transcript ss_edited_segments
       fmap option_fmap option_map from_option id].
  rewrite lookup_empty. cbn [from_option id].
  repeat split.
Qed.

(** File A in an empty session: the service returns [greeting]. *)
Lemma first_transcription_shows_originals_witness :
  let page := (run service (press file_a) empty_session).1.2 in
  let ss' := (run service (press file_a) empty_session).1.1 in
  in_uploaded_file (press file_a) = Some file_a
  ∧ (file_size file_a ≤ 20 * 1024 * 1024)%N
  ∧ in_button (press file_a) = true
  ∧ in_widgets (press file_a) = ∅
  ∧ service (transcription_request file_a) = Returned greeting
  ∧ NoDup (seg_start <$> tr_segments greeting)
  ∧ shown_full_text page = Some "hello world"
  ∧ exported_text page = Some "hello world"
  ∧ shown_segments page = [("segment_0.0", "hello"); ("segment_1.0", "world")]
  ∧ exported_rows page
    = Some [mkRow "0.00 - 1.00" "hello"; mkRow "1.00 - 2.00" "world"]
  ∧ ss_transcript ss' = Some "hello world"
  ∧ ss_segments ss' = Some (tr_segments greeting)
  ∧ ss_edited_transcript ss' = Some "hello world".
Proof.
  intros page ss'.
  assert (H1 : in_uploaded_file (press file_a) = Some file_a) by reflexivity.
  assert (H2 : (file_size file_a ≤ 20 * 1024 * 1024)%N)
    by (vm_compute; discriminate).
  assert (H3 : in_button (press file_a) = true) by reflexivity.
  assert (H4 : in_widgets (press file_a) = ∅) by reflexivity.
  assert (H5 : service (transcription_request file_a) = Returned greeting)
    by reflexivity.
  exact (conj H1 (conj H2 (conj H3 (conj H4 (conj H5
           (conj greeting_starts_distinct
              (first_transcription_shows_originals service (press file_a)
                 file_a greeting H1 H2 H3 H4 H5 greeting_starts_distinct))))))).
Defined.

(** *** From one execution to the next *)


Lemma shown_segments_run api inp ss :
  shown_segments (run api inp ss).1.2
  = shown_segments
      (display_section (in_widgets inp) (upload_section api inp ss).1.1).2.
Proof.
  rewrite run_page.
  by destruct (messages_app _
                 (display_section (in_widgets inp)
                    (upload_section api inp ss).1.1).2
                 (upload_section_page api inp ss)) as (_ & -> & _).
Qed.

(** The editors of a page are a matter of the segments, the dictionary and
    the widgets, and of whether there is a transcript. *)
Lemma shown_segments_same w ss1 ss2 :
  is_Some (ss_transcript ss1) → is_Some (ss_transcript ss2) →
  ss_segments ss1 = ss_segments ss2 →
  ss_edited_segments ss1 = ss_edited_segments ss2 →
  shown_segments (display_section w ss1).2
  = shown_segments (display_section w ss2).2.
Proof.
  intros [t1 H1] [t2 H2] Hs He.
  rewrite !display_section_spec, !shown_segments_display_view.
  by rewrite H1, H2, Hs, He.
Qed.

Lemma editor_needs_transcript w ss p :
  p ∈ shown_segments (display_section w ss).2 → is_Some (ss_transcript ss).
Proof.
  rewrite display_section_spec, shown_segments_display_view.
  destruct (ss_transcript ss); [by eexists|by intros ?%elem_of_nil].
Qed.

(** X9.  What a segment editor shows after one execution it shows again
    after the next one, whenever the widget then holds no text under the
    editor's key and that execution leaves the segments as they were (no
    other transcription has taken their place): the text is kept by the
    dictionary. *)
Theorem editor_text_survives_next_execution
    api1 api2 inp1 inp2 ss key text :
  let r1 := run api1 inp1 ss in
  let r2 := run api2 inp2 r1.1.1 in
  (key, text) ∈ shown_segments r1.1.2 →
  in_widgets inp2 !! key = None →
  ss_segments r2.1.1 = ss_segments r1.1.1 →
  (key, text) ∈ shown_segments r2.1.2.
Proof.
  cbn zeta. rewrite !shown_segments_run. rewrite (run_state api2).
  rewrite (run_state api1).
  set (u1 := (upload_section api1 inp1 ss).1.1).
  set (ss1 := (display_section (in_widgets inp1) u1).1).
  set (u2 := (upload_section api2 inp2 ss1).1.1).
  intros Hin Hw Hsegs.
  destruct (display_section_keeps (in_widgets inp2) u2) as [Hk _].
  rewrite Hk in Hsegs.
  destruct (upload_section_cases api2 inp2 ss1) as [Hu He]. cbn zeta in Hu, He.
  fold u2 in Hu, He.
  pose proof (editor_needs_transcript _ _ _ Hin) as Ht1.
  assert (Hts : is_Some (ss_transcript ss1)).
  { unfold ss1. by destruct (display_section_keeps (in_widgets inp1) u1)
      as [_ ->]. }
  assert (Ht2 : is_Some (ss_transcript u2)).
  { destruct Hu as [->|(f & t & _ & _ & ->)]; [done|by eexists]. }
  rewrite (shown_segments_same (in_widgets inp2) u2 ss1 Ht2 Hts Hsegs He).
  by apply shown_text_is_kept.
Qed.

(** "hi" typed into the first editor of [greeting], then another file
    uploaded without pressing the button. *)
Lemma editor_text_survives_next_execution_witness :
  let inp1 := rerun file_a {[ "segment_0.0" := "hi" ]} in
  let inp2 := rerun file_b ∅ in
  let ss := (session service [press file_a] empty_session []).1 in
  let r1 := run service inp1 ss in
  let r2 := run service inp2 r1.1.1 in
  ("segment_0.0", "hi") ∈ shown_segments r1.1.2
  ∧ in_widgets inp2 !! "segment_0.0" = None
  ∧ ss_segments r2.1.1 = ss_segments r1.1.1
  ∧ ("segment_0.0", "hi") ∈ shown_segments r2.1.2.
Proof.
  intros inp1 inp2 ss r1 r2.
  assert (H1 : ("segment_0.0", "hi") ∈ shown_segments r1.1.2)
    by (vm_compute; left).
  assert (H2 : in_widgets inp2 !! "segment_0.0" = None) by reflexivity.
  assert (H3 : ss_segments r2.1.1 = ss_segments r1.1.1) by reflexivity.
  exact (conj H1 (conj H2 (conj H3
           (editor_text_survives_next_execution service service inp1 inp2 ss
              "segment_0.0" "hi" H1 H2 H3)))).
Defined.

(** X16.  After an execution the session state has the text and the
    segments of the transcription the service returned in it, when a file
    within the size limit was uploaded, the button pressed and the call
    returned; in every other case (no file, a file too large, the button not
    pressed, the call raised) it has the transcript and the segments it had
    before.  Both entries are replaced together or not at all. *)
Theorem transcript_and_segments_after api inp ss :
  let ss' := (run api inp ss).1.1 in
  (ss_transcript ss', ss_segments ss')
  = match in_uploaded_file inp with
    | Some f =>
        if 20 * 1024 * 1024 <? file_size f
        then (ss_transcript ss, ss_segments ss)
        else if in_button inp then
          match api (transcription_request f) with
          | Returned t => (Some (tr_text t), Some (tr_segments t))
          | Raised _ => (ss_transcript ss, ss_segments ss)
          end
        else (ss_transcript ss, ss_segments ss)
    | None => (ss_transcript ss, ss_segments ss)
    end.
Proof.
  cbn zeta. rewrite run_state.
  destruct (display_section_keeps (in_widgets inp)
              (upload_section api inp ss).1.1) as [-> ->].
  unfold upload_section, process_audio. fold size_limit.
  destruct (in_uploaded_file inp) as [f|]; [|done].
  destruct (size_limit <? file_size f); [done|].
  destruct (in_button inp); [|done].
  by destruct (api (transcription_request f)).
Qed.

(** *** The empty text *)



(** [greeting] with its first editor emptied: the page, the one after it
    and the spreadsheet have the empty text where "hello" was. *)
Example emptied_editor_on_the_page :
  let page1 := (session service [press file_a;
                                 rerun file_a {[ "segment_0.0" := "" ]}]
                  empty_session []).2 in
  let page2 := (session service [press file_a;
                                 rerun file_a {[ "segment_0.0" := "" ]};
                                 rerun file_a ∅]
                  empty_session []).2 in
  seg_text (mkSegment 0 100 "hello") ≠ ""
  ∧ shown_segments page1 = [("segment_0.0", ""); ("segment_1.0", "world")]
  ∧ shown_segments page2 = [("segment_0.0", ""); ("segment_1.0", "world")]
  ∧ exported_rows page2
    = Some [mkRow "0.00 - 1.00" ""; mkRow "1.00 - 2.00" "world"].
Proof. vm_compute. repeat split; done. Qed.
